(** * vscode-helpers: the value-to-buffer normalizer, the stream aggregator,
      the completion guard and the process runner of [src/index.ts].

    The development is a shallow embedding of the TypeScript functions
    [toStringSafe], [normalizeString], [toBooleanSafe], [asArray],
    [createCompletedAction], [asBuffer] / [asBufferInner], [readAll] and
    [execFile], and of the smaller helpers [isEmptyString],
    [compareValues] / [compareValuesBy], [forEachAsync], [format] /
    [formatArray], [uuid] / [guid], [doesMatch], [isBinaryContent] and
    [SESSION_DISPOSER].  JavaScript values are an inductive type, promises are
    their settled state, event listeners and the mutable locals of a
    closure are fields of an explicit state record, and the calls that
    leave the library (resolve, reject, on, once, removeListener,
    ChildProcess.execFile) are recorded in a trace. *)

From Stdlib Require Import ZArith String Ascii List Lia Bool DecimalString.
From Stdlib.Strings Require Import Byte.
From stdpp Require Import base gmap strings list.
Import ListNotations.

Open Scope string_scope.
Open Scope list_scope.

Set Warnings "-register-all".

(** ** JavaScript strings

    A string is a sequence of code units; the model keeps the code units
    0..255 (Latin-1), which is what [Stdlib.Strings.String] offers. *)

Definition code (c : ascii) : nat := nat_of_ascii c.

(** [WhiteSpace] and [LineTerminator] of ECMAScript within 0..255:
    TAB, LF, VT, FF, CR, SP and NBSP.  This is the set [trim] strips. *)
Definition isWhiteSpace (c : ascii) : bool :=
  let n := code c in
  ((9 <=? n)%nat && (n <=? 13)%nat) || (n =? 32)%nat || (n =? 160)%nat.

(** [String.prototype.toLowerCase] on one code unit: A..Z and the Latin-1
    capitals U+00C0..U+00DE (U+00D7, the multiplication sign, excepted) move
    up by 32. *)
Definition lowerChar (c : ascii) : ascii :=
  let n := code c in
  if ((65 <=? n)%nat && (n <=? 90)%nat)
     || ((192 <=? n)%nat && (n <=? 222)%nat && negb (n =? 215)%nat)
  then ascii_of_nat (n + 32) else c.

Fixpoint toLowerCase (s : string) : string :=
  match s with
  | EmptyString => EmptyString
  | String c s' => String (lowerChar c) (toLowerCase s')
  end.

Fixpoint trimStart (s : string) : string :=
  match s with
  | EmptyString => EmptyString
  | String c s' => if isWhiteSpace c then trimStart s' else s
  end.

Fixpoint trimEnd (s : string) : string :=
  match s with
  | EmptyString => EmptyString
  | String c s' =>
      match trimEnd s' with
      | EmptyString => if isWhiteSpace c then EmptyString else String c EmptyString
      | t => String c t
      end
  end.

(** [String.prototype.trim]. *)
Definition trim (s : string) : string := trimEnd (trimStart s).

Definition isEmpty (s : string) : bool :=
  match s with EmptyString => true | _ => false end.

(** [Array.prototype.join] on strings. *)
Fixpoint join (sep : string) (parts : list string) : string :=
  match parts with
  | [] => ""
  | [p] => p
  | p :: rest => p +:+ sep +:+ join sep rest
  end.

(** Number-to-string of an integer: decimal digits, a leading minus sign for
    negatives. *)
Definition decimal (z : Z) : string := NilZero.string_of_int (Z.to_int z).

Definition dquote : ascii := ascii_of_nat 34.
Definition backslash : ascii := ascii_of_nat 92.

Definition hexDigit (n : nat) : ascii :=
  if (n <? 10)%nat then ascii_of_nat (48 + n) else ascii_of_nat (87 + n).

(** [QuoteJSONString]: one code unit. *)
Definition jsonEscape (c : ascii) : string :=
  let n := code c in
  if (n =? 34)%nat then String backslash (String dquote "")
  else if (n =? 92)%nat then String backslash (String backslash "")
  else if (n =? 8)%nat then String backslash "b"
  else if (n =? 9)%nat then String backslash "t"
  else if (n =? 10)%nat then String backslash "n"
  else if (n =? 12)%nat then String backslash "f"
  else if (n =? 13)%nat then String backslash "r"
  else if (n <? 32)%nat
       then String backslash
              ("u00" +:+ String (hexDigit (n / 16)) (String (hexDigit (n mod 16)) ""))
  else String c "".

Fixpoint jsonEscapeAll (s : string) : string :=
  match s with
  | EmptyString => EmptyString
  | String c s' => jsonEscape c +:+ jsonEscapeAll s'
  end.

Definition jsonQuote (s : string) : string :=
  String dquote (jsonEscapeAll s +:+ String dquote "").

(** ** Values *)

(** What calling a conversion method of an object does.  [Missing]: the
    property is absent or not callable; [ReturnsSelf]: the method returns
    the object itself (what [Object.prototype.valueOf] does);
    [ReturnsString s]; [ReturnsUndefined]; [Raises msg]: it throws
    [new Error(msg)]. *)
Inductive method : Type :=
  | Missing
  | ReturnsSelf
  | ReturnsString (s : string)
  | ReturnsUndefined
  | Raises (msg : string).

(** The three conversion hooks of an object: [toString], [valueOf] and
    [toJSON]. *)
Record hooks : Type := Hooks {
  h_toString : method;
  h_valueOf : method;
  h_toJSON : method
}.

(** The hooks of an object literal: the inherited [Object.prototype]
    methods and no [toJSON]. *)
Definition plain : hooks :=
  {| h_toString := ReturnsString "[object Object]";
     h_valueOf := ReturnsSelf;
     h_toJSON := Missing |}.

(** Data: primitives (numbers are integers), arrays, and objects given by
    their conversion hooks and their own enumerable properties in
    enumeration order. *)
Inductive data : Type :=
  | DUndefined
  | DNull
  | DBool (b : bool)
  | DNum (n : Z)
  | DStr (s : string)
  | DArr (items : list data)
  | DObj (h : hooks) (props : list (string * data)).

(** A synchronous completion and the settled state of a promise. *)
Inductive result (E A : Type) : Type :=
  | Ok (a : A)
  | Throw (e : E).
Arguments Ok {E A} a.
Arguments Throw {E A} e.

Inductive promise (E A : Type) : Type :=
  | Fulfilled (a : A)
  | Rejected (e : E)
  | Pending.
Arguments Fulfilled {E A} a.
Arguments Rejected {E A} e.
Arguments Pending {E A}.

(** A depth argument as JavaScript sees it: [undefined], [null], [NaN] or an
    integer. *)
Inductive jsnum : Type :=
  | NUndefined
  | NNull
  | NNaN
  | NNum (z : Z).

(** A chunk of a readable stream: [Buffer | string]. *)
Inductive chunk : Type :=
  | CBuffer (b : list byte)
  | CString (s : string).

(** What a readable stream emits. *)
Inductive stream_event (V : Type) : Type :=
  | SData (c : chunk)
  | SEnd
  | SError (err : V).
Arguments SData {V} c.
Arguments SEnd {V}.
Arguments SError {V} err.

(** The values [asBuffer] distinguishes.  A function carries its source text
    and what calling it with [(enc, funcDepth, maxDepth)] and awaiting the
    result gives; a readable stream carries the events it emits once it
    flows; [VError name message] is an instance of [Error] or of one of its
    subclasses, [name] being what its [name] property holds. *)
Inductive value : Type :=
  | VData (d : data)
  | VBuffer (b : list byte)
  | VFunction (source : string)
              (call : option string -> jsnum -> jsnum -> promise value value)
  | VReadable (events : list (stream_event value))
  | VError (name : string) (message : string).

Abbreviation VUndefined := (VData DUndefined).
Abbreviation VNull := (VData DNull).
Abbreviation VString s := (VData (DStr s)).

Definition res := result value.

Definition bind {A B : Type} (r : res A) (k : A -> res B) : res B :=
  match r with
  | Ok a => k a
  | Throw e => Throw e
  end.

Notation "'do' x <- r ; k" := (bind r (fun x => k))
  (at level 10, x name, r at level 100, k at level 200).

(** An [async] function body: what it returns fulfils the promise, what it
    throws rejects it. *)
Definition settle {A : Type} (r : res A) : promise value A :=
  match r with
  | Ok a => Fulfilled a
  | Throw e => Rejected e
  end.

(** The [TypeError] of converting an object that has no usable [valueOf] or
    [toString]. *)
Definition cannotConvert : value :=
  VError "TypeError" "Cannot convert object to primitive value".

(** ** The platform: Node's [Buffer] and the ambient environment *)

Class Platform : Type := {
  (** [new Buffer(str, enc)]; [None] is an omitted encoding.  It throws on
      an encoding name it does not know. *)
  Buffer_new : string -> option string -> res (list byte);
  (** [buf.toString()] *)
  Buffer_toString : list byte -> string;
  (** [JSON.stringify] of a [Readable]: the text depends on the internals
      of Node's streams. *)
  Readable_json : string;
  (** [process.env] *)
  process_env : data
}.

Section Coercions.

Context {P : Platform}.

(** ** Conversions of the language *)

(** [OrdinaryToPrimitive] followed by [ToString]: the methods are tried in
    the order given, a method that is missing or returns an object is
    skipped, and when none is left a [TypeError] is thrown. *)
Fixpoint ordinaryToPrimitive (ms : list method) : res string :=
  match ms with
  | [] => Throw cannotConvert
  | Missing :: ms' => ordinaryToPrimitive ms'
  | ReturnsSelf :: ms' => ordinaryToPrimitive ms'
  | ReturnsString s :: _ => Ok s
  | ReturnsUndefined :: _ => Ok "undefined"
  | Raises msg :: _ => Throw (VError "Error" msg)
  end.

(** [ToString] (hint [string]: [toString] before [valueOf]); an array is
    joined with commas, [undefined] and [null] elements giving the empty
    string. *)
Fixpoint ToString (d : data) : res string :=
  match d with
  | DUndefined => Ok "undefined"
  | DNull => Ok "null"
  | DBool b => Ok (if b then "true" else "false")
  | DNum n => Ok (decimal n)
  | DStr s => Ok s
  | DArr items =>
      match
        (fix parts (l : list data) : res (list string) :=
           match l with
           | [] => Ok []
           | x :: l' =>
               match
                 match x with
                 | DUndefined | DNull => Ok ""
                 | _ => ToString x
                 end
               with
               | Throw e => Throw e
               | Ok p =>
                   match parts l' with
                   | Throw e => Throw e
                   | Ok ps => Ok (p :: ps)
                   end
               end
           end) items
      with
      | Throw e => Throw e
      | Ok ps => Ok (join "," ps)
      end
  | DObj h _ => ordinaryToPrimitive [h_toString h; h_valueOf h]
  end.

(** ['' + d] (hint [default]: [valueOf] before [toString]). *)
Definition concatData (d : data) : res string :=
  match d with
  | DObj h _ => ordinaryToPrimitive [h_valueOf h; h_toString h]
  | _ => ToString d
  end.

(** [Error.prototype.toString]. *)
Definition errorToString (name message : string) : string :=
  if isEmpty message then name
  else if isEmpty name then message
  else name +:+ ": " +:+ message.

(** ['' + val]. *)
Definition concatEmpty (val : value) : res string :=
  match val with
  | VData d => concatData d
  | VBuffer b => Ok (Buffer_toString b)
  | VFunction source _ => Ok source
  | VReadable _ => Ok "[object Object]"
  | VError name message => Ok (errorToString name message)
  end.

(** [SerializeJSONProperty]: [None] is [undefined].  A callable [toJSON] is
    asked first; an [undefined] element of an array is written [null], an
    [undefined] member of an object is left out. *)
Fixpoint JSON_data (d : data) : res (option string) :=
  match d with
  | DUndefined => Ok None
  | DNull => Ok (Some "null")
  | DBool b => Ok (Some (if b then "true" else "false"))
  | DNum n => Ok (Some (decimal n))
  | DStr s => Ok (Some (jsonQuote s))
  | DArr items =>
      match
        (fix elements (l : list data) : res (list string) :=
           match l with
           | [] => Ok []
           | x :: l' =>
               match JSON_data x with
               | Throw e => Throw e
               | Ok o =>
                   match elements l' with
                   | Throw e => Throw e
                   | Ok r => Ok (match o with Some t => t | None => "null" end :: r)
                   end
               end
           end) items
      with
      | Throw e => Throw e
      | Ok ts => Ok (Some ("[" +:+ join "," ts +:+ "]"))
      end
  | DObj h props =>
      match h_toJSON h with
      | Raises msg => Throw (VError "Error" msg)
      | ReturnsString s => Ok (Some (jsonQuote s))
      | ReturnsUndefined => Ok None
      | Missing | ReturnsSelf =>
          match
            (fix members (l : list (string * data)) : res (list string) :=
               match l with
               | [] => Ok []
               | (k, x) :: l' =>
                   match JSON_data x with
                   | Throw e => Throw e
                   | Ok o =>
                       match members l' with
                       | Throw e => Throw e
                       | Ok r =>
                           Ok (match o with
                               | Some t => (jsonQuote k +:+ ":" +:+ t) :: r
                               | None => r
                               end)
                       end
                   end
               end) props
          with
          | Throw e => Throw e
          | Ok ms => Ok (Some ("{" +:+ join "," ms +:+ "}"))
          end
      end
  end.

Definition byteNum (b : byte) : data := DNum (Z.of_N (Byte.to_N b)).

(** [JSON.stringify(val)].  A buffer has a [toJSON] that gives
    [{type: 'Buffer', data: [...]}]; a function is not serialisable; of an
    error no own property is enumerable. *)
Definition JSON_stringify (val : value) : res (option string) :=
  match val with
  | VData d => JSON_data d
  | VBuffer b =>
      JSON_data (DObj plain [("type", DStr "Buffer"); ("data", DArr (map byteNum b))])
  | VFunction _ _ => Ok None
  | VReadable _ => Ok (Some Readable_json)
  | VError _ _ => Ok (Some "{}")
  end.

(** Truthiness, as [if (val)] and [!!val] test it. *)
Definition truthy (val : value) : bool :=
  match val with
  | VData DUndefined | VData DNull => false
  | VData (DBool b) => b
  | VData (DNum n) => negb (n =? 0)%Z
  | VData (DStr s) => negb (isEmpty s)
  | _ => true
  end.

(** ** The lodash and Node predicates the library calls *)

Definition isNil (val : value) : bool :=
  match val with
  | VData DUndefined | VData DNull => true
  | _ => false
  end.

Definition isString (val : value) : bool :=
  match val with VData (DStr _) => true | _ => false end.

Definition isBoolean (val : value) : bool :=
  match val with VData (DBool _) => true | _ => false end.

Definition isArray (val : value) : bool :=
  match val with VData (DArr _) => true | _ => false end.

Definition isFunction (val : value) : bool :=
  match val with VFunction _ _ => true | _ => false end.

Definition isBuffer (val : value) : bool :=
  match val with VBuffer _ => true | _ => false end.

(** [IsStream.readable] *)
Definition isReadable (val : value) : bool :=
  match val with VReadable _ => true | _ => false end.

Definition instanceofError (val : value) : bool :=
  match val with VError _ _ => true | _ => false end.

(** [_.isObject]: arrays, objects, buffers, streams, errors and functions;
    no primitive. *)
Definition isObject (val : value) : bool :=
  match val with
  | VData (DArr _) | VData (DObj _ _) => true
  | VData _ => false
  | _ => true
  end.

(** [_.isFunction(val['toString'])].  Reading a property of [undefined] or
    [null] throws. *)
Definition hasToString (val : value) : res bool :=
  match val with
  | VData DUndefined | VData DNull =>
      Throw (VError "TypeError" "Cannot read property 'toString' of undefined")
  | VData (DObj h _) =>
      Ok (match h_toString h with Missing => false | _ => true end)
  | _ => Ok true
  end.

(** ['' + val.toString()] *)
Definition callToString (val : value) : res string :=
  match val with
  | VData (DObj h _) =>
      match h_toString h with
      | Missing => Throw (VError "TypeError" "val.toString is not a function")
      | ReturnsSelf => concatEmpty val
      | ReturnsString s => Ok s
      | ReturnsUndefined => Ok "undefined"
      | Raises msg => Throw (VError "Error" msg)
      end
  | VData d => ToString d
  | VError _ _ | VBuffer _ | VFunction _ _ | VReadable _ => concatEmpty val
  end.

(** ** [toStringSafe], [normalizeString], [toBooleanSafe], [asArray] *)

(** [toStringSafe(val, defaultVal = '')].  The result is the string
    returned, or [None] when [JSON.stringify] gave [undefined].  [attempt] is
    the [try] block: [Ok (Some r)] when it returned [r], [Ok None] when it
    ran to its end; the [catch] is empty, and the last statement is outside
    the [try]. *)
Definition toStringSafe (val : value) (defaultVal : string) : res (option string) :=
  match val with
  | VData (DStr s) => Ok (Some s)
  | _ =>
      if isNil val then Ok (Some defaultVal)
      else
        let attempt : res (option (option string)) :=
          match val with
          | VError _ message => Ok (Some (Some message))
          | _ =>
              do t <- hasToString val;
              if t then (do s <- callToString val; Ok (Some (Some s)))
              else if isObject val then (do j <- JSON_stringify val; Ok (Some j))
              else Ok None
          end in
        match attempt with
        | Ok (Some r) => Ok r
        | Ok None | Throw _ => do s <- concatEmpty val; Ok (Some s)
        end
  end.

(** [(str) => str.toLowerCase().trim()] *)
Definition defaultNormalizer (str : option string) : res string :=
  match str with
  | Some s => Ok (trim (toLowerCase s))
  | None => Throw (VError "TypeError" "Cannot read property 'toLowerCase' of undefined")
  end.

(** [normalizeString(val, normalizer?)] *)
Definition normalizeString (val : value)
    (normalizer : option (option string -> res string)) : res string :=
  let normalizer :=
    match normalizer with
    | Some n => n
    | None => defaultNormalizer
    end in
  do str <- toStringSafe val "";
  normalizer str.

(** [toBooleanSafe(val, defaultVal = false)] *)
Definition toBooleanSafe (val : value) (defaultVal : value) : bool :=
  match val with
  | VData (DBool b) => b
  | _ => if isNil val then truthy defaultVal else truthy val
  end.

(** [asArray(val, removeEmpty = true)]: [removeEmpty] is [VUndefined] when
    the argument is omitted. *)
Definition asArray (val : value) (removeEmpty : value) : list value :=
  let removeEmpty :=
    match removeEmpty with
    | VData DUndefined => VData (DBool true)
    | r => r
    end in
  let removeEmpty := toBooleanSafe removeEmpty (VData (DBool true)) in
  List.filter (fun i => if removeEmpty then negb (isNil i) else true)
         (match val with
          | VData (DArr items) => map VData items
          | _ => [val]
          end).

End Coercions.

(** ** [createCompletedAction] *)

Module CompletedAction.
Section Action.

(** What the two callbacks act on. *)
Variable W : Type.

(** A callback changes the world and may then throw. *)
Definition callback : Type := value -> W -> W * option value.

(** The closure's [completedInvoked] and the world of the callbacks. *)
Record state : Type := State {
  completedInvoked : bool;
  world : W
}.

(** The state right after [createCompletedAction(resolve, reject)]. *)
Definition created (w : W) : state :=
  {| completedInvoked := false; world := w |}.

(** One call [(err, result?) => { ... }] of the action that
    [createCompletedAction(resolve, reject)] returned; an omitted [result] is
    [VUndefined], a callback that is not given is [None].  The second
    component is what the call throws. *)
Definition createCompletedAction (resolve reject : option callback)
    (err result : value) (st : state) : state * option value :=
  if completedInvoked st then (st, None)
  else
    let st := {| completedInvoked := true; world := world st |} in
    if truthy err then
      match reject with
      | Some reject =>
          let (w, thrown) := reject err (world st) in
          ({| completedInvoked := true; world := w |}, thrown)
      | None => (st, None)
      end
    else
      match resolve with
      | Some resolve =>
          let (w, thrown) := resolve result (world st) in
          ({| completedInvoked := true; world := w |}, thrown)
      | None => (st, None)
      end.

(** A sequence of calls [(err, result)] of one action. *)
Fixpoint invoke (resolve reject : option callback)
    (calls : list (value * value)) (st : state) : state :=
  match calls with
  | [] => st
  | (err, result) :: calls' =>
      invoke resolve reject calls'
             (fst (createCompletedAction resolve reject err result st))
  end.

End Action.

Arguments completedInvoked {W} s.
Arguments world {W} s.
Arguments created {W} w.
Arguments createCompletedAction {W} resolve reject err result st.
Arguments invoke {W} resolve reject calls st.

(** Which callback was called, and with what. *)
Inductive called : Type :=
  | Resolve (result : value)
  | Reject (reason : value).

(** A callback under observation: it does what [cb] does, and the call is
    written to a log next to the world. *)
Definition observed {W : Type} (tag : value -> called) (cb : callback W)
    : callback (W * list called) :=
  fun v wl =>
    let (w', thrown) := cb v (fst wl) in
    ((w', snd wl ++ [tag v]), thrown).

End CompletedAction.

(** ** [readAll] *)

Module ReadAll.

Inductive event_name : Type := data_ev | end_ev | error_ev.

(** The calls that leave [readAll]. *)
Inductive effect : Type :=
  | CallOn (ev : event_name)
  | CallOnce (ev : event_name)
  | CallTryRemoveListener (ev : event_name)
  | CallResolve (result : value)
  | CallReject (reason : value).

(** The locals of the promise executor, the three listeners of this call as
    the stream holds them, and the calls made so far. *)
Record state : Type := State {
  buff : value;
  completedInvoked : bool;
  dataAttached : bool;
  endAttached : bool;
  errorAttached : bool;
  trace : list effect
}.

Definition setBuff (b : value) (st : state) : state :=
  {| buff := b; completedInvoked := completedInvoked st;
     dataAttached := dataAttached st; endAttached := endAttached st;
     errorAttached := errorAttached st; trace := trace st |}.

Definition setCompletedInvoked (st : state) : state :=
  {| buff := buff st; completedInvoked := true;
     dataAttached := dataAttached st; endAttached := endAttached st;
     errorAttached := errorAttached st; trace := trace st |}.

Definition setAttached (ev : event_name) (on : bool) (st : state) : state :=
  {| buff := buff st; completedInvoked := completedInvoked st;
     dataAttached := match ev with data_ev => on | _ => dataAttached st end;
     endAttached := match ev with end_ev => on | _ => endAttached st end;
     errorAttached := match ev with error_ev => on | _ => errorAttached st end;
     trace := trace st |}.

Definition attached (ev : event_name) (st : state) : bool :=
  match ev with
  | data_ev => dataAttached st
  | end_ev => endAttached st
  | error_ev => errorAttached st
  end.

Definition call (e : effect) (st : state) : state :=
  {| buff := buff st; completedInvoked := completedInvoked st;
     dataAttached := dataAttached st; endAttached := endAttached st;
     errorAttached := errorAttached st; trace := trace st ++ [e] |}.

(** Modelled from the spec: [tryRemoveListener] of [./events], whose source
    is not at hand.  Deregistration is attempted per listener and never
    raises: on an emitter the listener is taken off, on anything else
    nothing happens. *)
Definition tryRemoveListener (stream : value) (ev : event_name) (st : state) : state :=
  let st := call (CallTryRemoveListener ev) st in
  if isReadable stream then setAttached ev false st else st.

(** [stream.on(ev, listener)] and [stream.once(ev, listener)] of an
    emitter. *)
Definition on (ev : event_name) (st : state) : state :=
  setAttached ev true (call (CallOn ev) st).

Definition once (ev : event_name) (st : state) : state :=
  setAttached ev true (call (CallOnce ev) st).

Section Listeners.

Context {P : Platform}.

(** The lines [enc = normalizeString(enc); if ('' === enc) enc = undefined;]
    that open both [readAll] and [asBufferInner]. *)
Definition normalizeEncoding (enc : option string) : res (option string) :=
  do enc <- normalizeString (match enc with Some e => VString e | None => VUndefined end) None;
  if isEmpty enc then Ok None else Ok (Some enc).

(** [Buffer.concat([ buff, chunk ])] *)
Definition Buffer_concat (buff : value) (chunk : list byte) : res (list byte) :=
  match buff with
  | VBuffer b => Ok (b ++ chunk)
  | _ => Throw (VError "TypeError" "list[0] argument must be one of type Array, Buffer, or Uint8Array")
  end.

Variable stream : value.
Variable enc : option string.

Definition COMPLETED (err : value) (st : state) : state :=
  if completedInvoked st then st
  else
    let st := setCompletedInvoked st in
    let st := tryRemoveListener stream data_ev st in
    let st := tryRemoveListener stream end_ev st in
    let st := tryRemoveListener stream error_ev st in
    if truthy err then call (CallReject err) st
    else call (CallResolve (buff st)) st.

Definition errorListener (err : value) (st : state) : state :=
  if truthy err then COMPLETED err st else st.

(** [!chunk || chunk.length < 1] *)
Definition isEmptyChunk (c : chunk) : bool :=
  match c with
  | CBuffer b => (length b <? 1)%nat
  | CString s => isEmpty s
  end.

Definition dataListener (c : chunk) (st : state) : state :=
  if isEmptyChunk c then st
  else
    match
      (do bytes <- match c with
                  | CString s => Buffer_new s enc
                  | CBuffer b => Ok b
                  end;
       Buffer_concat (buff st) bytes)
    with
    | Ok b => setBuff (VBuffer b) st
    | Throw e => COMPLETED e st
    end.

Definition endListener (st : state) : state := COMPLETED VNull st.

(** The promise executor, up to its return. *)
Definition executor : state :=
  let st := {| buff := VUndefined; completedInvoked := false;
               dataAttached := false; endAttached := false;
               errorAttached := false; trace := [] |} in
  if isNil stream then COMPLETED VNull (setBuff stream st)
  else if isReadable stream then
    let st := on error_ev st in
    let st := setBuff (VBuffer []) st in
    let st := once end_ev st in
    on data_ev st
  else
    (* [stream.on] is not a function: the first statement of the [try]
       throws *)
    COMPLETED (VError "TypeError" "stream.on is not a function") st.

(** The emitter delivers one event: a listener that is attached is called, a
    [once] listener is taken off before it is called. *)
Definition emit (ev : stream_event value) (st : state) : state :=
  match ev with
  | SData c => if dataAttached st then dataListener c st else st
  | SEnd => if endAttached st then endListener (setAttached end_ev false st) else st
  | SError err => if errorAttached st then errorListener err st else st
  end.

Definition deliver (evs : list (stream_event value)) (st : state) : state :=
  fold_left (fun st ev => emit ev st) evs st.

End Listeners.

(** The state of the promise: only the first call of [resolve] or [reject]
    settles it. *)
Fixpoint settled (t : list effect) : promise value value :=
  match t with
  | [] => Pending
  | CallResolve v :: _ => Fulfilled v
  | CallReject e :: _ => Rejected e
  | _ :: t' => settled t'
  end.

Definition eventsOf (stream : value) : list (stream_event value) :=
  match stream with
  | VReadable evs => evs
  | _ => []
  end.

(** The state of one [readAll(stream, enc)] once the stream has emitted all
    its events. *)
Definition run {P : Platform} (stream : value) (enc : option string) : res state :=
  do enc <- normalizeEncoding enc;
  Ok (deliver stream enc (eventsOf stream) (executor stream)).

(** [readAll(stream, enc?)]: it throws when normalising [enc] throws, and
    returns the promise otherwise. *)
Definition readAll {P : Platform} (stream : value) (enc : option string)
    : res (promise value value) :=
  do st <- run stream enc;
  Ok (settled (trace st)).

End ReadAll.

(** ** [asBuffer] *)

Section AsBuffer.

Context {P : Platform}.

Definition isNaN (n : jsnum) : bool :=
  match n with
  | NUndefined | NNaN => true
  | NNull | NNum _ => false
  end.

(** [ToNumber]; [None] is [NaN]. *)
Definition toNumber (n : jsnum) : option Z :=
  match n with
  | NUndefined | NNaN => None
  | NNull => Some 0%Z
  | NNum z => Some z
  end.

(** [a > b] *)
Definition greater (a b : jsnum) : bool :=
  match toNumber a, toNumber b with
  | Some x, Some y => (y <? x)%Z
  | _, _ => false
  end.

(** [n + 1] *)
Definition plusOne (n : jsnum) : jsnum :=
  match toNumber n with
  | Some z => NNum (z + 1)
  | None => NNaN
  end.

(** [`${n}`] *)
Definition showNum (n : jsnum) : string :=
  match n with
  | NUndefined => "undefined"
  | NNull => "null"
  | NNaN => "NaN"
  | NNum z => decimal z
  end.

(** [new Error(`Maximum depth of ${maxDepth} reached!`)] *)
Definition maximumDepthReached (maxDepth : jsnum) : value :=
  VError "Error" ("Maximum depth of " +:+ showNum maxDepth +:+ " reached!").

(** [new Buffer(x, enc)] for [x] a string or [undefined]. *)
Definition newBuffer (x : option string) (enc : option string) : res value :=
  match x with
  | Some s => do b <- Buffer_new s enc; Ok (VBuffer b)
  | None =>
      Throw (VError "TypeError"
               "First argument must be a string, Buffer, ArrayBuffer, Array, or array-like object.")
  end.

Fixpoint asBufferInner (val : value) (enc : option string)
    (funcDepth maxDepth : jsnum) : promise value value :=
  match ReadAll.normalizeEncoding enc with
  | Throw e => Rejected e
  | Ok enc =>
      let funcDepth := if isNaN funcDepth then NNum 0 else funcDepth in
      let maxDepth := if isNaN maxDepth then NNum 63 else maxDepth in
      if greater funcDepth maxDepth then Rejected (maximumDepthReached maxDepth)
      else if isBuffer val || isNil val then Fulfilled val
      else
        match val with
        | VFunction _ call =>
            (* wrapped *)
            match call enc funcDepth maxDepth with
            | Fulfilled v => asBufferInner v enc (plusOne funcDepth) maxDepth
            | Rejected e => Rejected e
            | Pending => Pending
            end
        | _ =>
            if isReadable val then
              (* stream *)
              match ReadAll.readAll val None with
              | Ok p => p
              | Throw e => Rejected e
              end
            else if isObject val then
              (* JSON object *)
              settle (do j <- JSON_stringify val; newBuffer j enc)
            else
              (* handle as string *)
              settle (do s <- toStringSafe val ""; newBuffer s enc)
        end
  end.

(** [asBuffer(val, enc?, maxDepth?)] *)
Definition asBuffer (val : value) (enc : option string) (maxDepth : jsnum)
    : promise value value :=
  asBufferInner val enc NNull maxDepth.

End AsBuffer.

(** ** [execFile] *)

Module ExecFile.

(** Objects the caller and [execFile] share live in a heap: a location
    names an object, an object maps property names to values. *)
Definition loc : Type := nat.

(** What [ChildProcess.execFile] is called with. *)
Record launch : Type := Launch {
  file : option string;
  args : list (option string);
  options : loc
}.

(** What [ChildProcess.execFile] then does: it throws, or it returns the
    child [P] and later calls the callback with [(err, stdout, stderr)], or it
    returns the child and never calls back. *)
Inductive behaviour : Type :=
  | Throws (e : value)
  | CallsBack (child : nat) (err stdout stderr : value)
  | Silent (child : nat).

Record ExecFileResult : Type := Result {
  stdErr : value;
  stdOut : value;
  process : option nat
}.

Inductive effect : Type :=
  | CallResolve (result : ExecFileResult)
  | CallReject (reason : value).

(** The locals of the promise executor and the calls made so far. *)
Record state : Type := State {
  RESULT : ExecFileResult;
  completedInvoked : bool;
  trace : list effect
}.

Definition COMPLETED (err : value) (st : state) : state :=
  if completedInvoked st then st
  else
    let st := {| RESULT := RESULT st; completedInvoked := true; trace := trace st |} in
    if truthy err
    then {| RESULT := RESULT st; completedInvoked := true;
            trace := trace st ++ [CallReject err] |}
    else {| RESULT := RESULT st; completedInvoked := true;
            trace := trace st ++ [CallResolve (RESULT st)] |}.

Definition setResult (r : ExecFileResult) (st : state) : state :=
  {| RESULT := r; completedInvoked := completedInvoked st; trace := trace st |}.

Definition settled (t : list effect) : promise value ExecFileResult :=
  match t with
  | [] => Pending
  | CallResolve r :: _ => Fulfilled r
  | CallReject e :: _ => Rejected e
  end.

Fixpoint mapM {A B : Type} (f : A -> res B) (l : list A) : res (list B) :=
  match l with
  | [] => Ok []
  | a :: l' => do b <- f a; do bs <- mapM f l'; Ok (b :: bs)
  end.

(** The object at a location; a location the heap does not hold reads as
    an object without properties. *)
Definition objectAt (h : gmap loc (gmap string value)) (l : loc) : gmap string value :=
  match h !! l with
  | Some o => o
  | None => ∅
  end.

(** [o.name]: a property the object does not have reads [undefined]. *)
Definition property (o : gmap string value) (name : string) : value :=
  match o !! name with
  | Some v => v
  | None => VUndefined
  end.

Section Exec.

Context {P : Platform}.

(** [ChildProcess.execFile(command, args, opts, callback)], given the
    options object as it is at the call. *)
Variable ChildProcess_execFile : launch -> gmap string value -> behaviour.

(** The callback [(err, stdout, stderr) => { ... }] handed to
    [ChildProcess.execFile], together with the [then] of the [async] block
    it starts. *)
Definition callback (child : nat) (err stdout stderr : value) (st : state) : state :=
  if truthy err then COMPLETED err st
  else
    let st := setResult {| stdErr := stdErr (RESULT st); stdOut := stdOut (RESULT st);
                           process := Some child |} st in
    match asBuffer stderr (Some "utf8") NUndefined with
    | Rejected e => COMPLETED e st
    | Pending => st
    | Fulfilled b =>
        let st := setResult {| stdErr := b; stdOut := stdOut (RESULT st);
                               process := process (RESULT st) |} st in
        match asBuffer stdout (Some "utf8") NUndefined with
        | Rejected e => COMPLETED e st
        | Pending => st
        | Fulfilled b =>
            let st := setResult {| stdErr := stdErr (RESULT st); stdOut := b;
                                   process := process (RESULT st) |} st in
            COMPLETED VNull st
        end
    end.

(** What one call of [execFile] leaves behind: the promise it returned, the
    launch it asked for (if it got that far) with the options object as it
    was at that moment, and the heap. *)
Record outcome : Type := Outcome {
  returned : promise value ExecFileResult;
  launched : option (launch * gmap string value);
  heap : gmap loc (gmap string value)
}.

(** [execFile(command, args?, opts?)]; [opts] is [None] when the argument is
    omitted or [null]. *)
Definition execFile (command : value) (args : value) (opts : option loc)
    (h : gmap loc (gmap string value)) : outcome :=
  match
    (do command <- toStringSafe command "";
     do args <- mapM (fun a => toStringSafe a "") (asArray args (VData (DBool false)));
     Ok (command, args))
  with
  | Throw e => {| returned := Rejected e; launched := None; heap := h |}
  | Ok (command, args) =>
      let '(opts, h) :=
        match opts with
        | Some l => (l, h)
        | None => let l := fresh (dom h) in (l, <[l := ∅]> h)
        end in
      let h :=
        if isNil (property (objectAt h opts) "env")
        then <[opts := <["env" := VData process_env]> (objectAt h opts)]> h
        else h in
      let l := {| file := command; args := args; options := opts |} in
      let st := {| RESULT := {| stdErr := VUndefined; stdOut := VUndefined; process := None |};
                   completedInvoked := false; trace := [] |} in
      let st :=
        match ChildProcess_execFile l (objectAt h opts) with
        | Throws e => COMPLETED e st
        | CallsBack child err stdout stderr => callback child err stdout stderr st
        | Silent _ => st
        end in
      {| returned := settled (trace st); launched := Some (l, objectAt h opts);
         heap := h |}
  end.

End Exec.

End ExecFile.

(** ** A platform to compute with

    [nodeText] encodes with the text encodings of Node: UTF-8 (the default),
    Latin-1 and UTF-16LE, under the names Node accepts for them, whatever
    their case; every other name is refused as unknown, which is what Node
    does except for [hex] and [base64], which this instance leaves out. *)

Definition byteOf (n : nat) : byte :=
  match Byte.of_N (N.of_nat n) with
  | Some b => b
  | None => x00
  end.

Fixpoint utf8 (s : string) : list byte :=
  match s with
  | EmptyString => []
  | String c s' =>
      let n := code c in
      if (n <? 128)%nat then byteOf n :: utf8 s'
      else byteOf (192 + n / 64) :: byteOf (128 + n mod 64) :: utf8 s'
  end.

Definition latin1 (s : string) : list byte := list_byte_of_string s.

Fixpoint utf16le (s : string) : list byte :=
  match s with
  | EmptyString => []
  | String c s' => byteOf (code c) :: x00 :: utf16le s'
  end.

Definition oneOf (names : list string) (s : string) : bool :=
  existsb (String.eqb s) names.

Definition nodeEncode (s : string) (enc : option string) : res (list byte) :=
  match enc with
  | None => Ok (utf8 s)
  | Some e =>
      let name := toLowerCase e in
      if oneOf [""; "utf8"; "utf-8"] name then Ok (utf8 s)
      else if oneOf ["latin1"; "binary"; "ascii"] name then Ok (latin1 s)
      else if oneOf ["ucs2"; "ucs-2"; "utf16le"; "utf-16le"] name then Ok (utf16le s)
      else Throw (VError "TypeError" ("Unknown encoding: " +:+ e))
  end.

(** Decoding UTF-8 into code units below 256; a byte sequence that stands
    for anything else is shown as a question mark. *)
Fixpoint utf8Decode (b : list byte) : string :=
  match b with
  | [] => ""
  | x :: b' =>
      let n := N.to_nat (Byte.to_N x) in
      if (n <? 128)%nat then String (ascii_of_nat n) (utf8Decode b')
      else
        match b' with
        | y :: b'' =>
            let m := N.to_nat (Byte.to_N y) in
            if ((n =? 194)%nat || (n =? 195)%nat) && (128 <=? m)%nat && (m <? 192)%nat
            then String (ascii_of_nat ((n - 192) * 64 + (m - 128))) (utf8Decode b'')
            else String "?" (utf8Decode b')
        | [] => "?"
        end
  end.

Definition nodeText : Platform := {|
  Buffer_new := nodeEncode;
  Buffer_toString := utf8Decode;
  Readable_json := "{}";
  process_env := DObj plain [("PATH", DStr "/usr/bin")]
|}.

(** ** Notions the statements use *)

(** The encoding the byte-encoding step is given: [None] for an absent or
    blank request, the request in lower case and trimmed otherwise. *)
Definition encodingOf (enc : option string) : option string :=
  match enc with
  | None => None
  | Some e =>
      let e' := trim (toLowerCase e) in
      if isEmpty e' then None else Some e'
  end.

(** The depth limit in force: 63 when [maxDepth] is [undefined] or [NaN]. *)
Definition maxDepthOf (maxDepth : jsnum) : jsnum :=
  if isNaN maxDepth then NNum 63 else maxDepth.

Definition limit (maxDepth : jsnum) : Z :=
  match toNumber (maxDepthOf maxDepth) with
  | Some z => z
  | None => 63
  end.

(** [defers enc maxDepth d n v b]: [v] is a chain of [n] deferred-value
    functions that ends in the buffer [b], where the function at depth [d] is
    called with [(enc, d, maxDepth)] and the one it returns sits at depth
    [d + 1]. *)
Inductive defers (enc : option string) (maxDepth : jsnum)
    : jsnum -> nat -> value -> list byte -> Prop :=
  | defers_buffer d b :
      defers enc maxDepth d 0 (VBuffer b) b
  | defers_function d n source call v b :
      call enc d maxDepth = Fulfilled v ->
      defers enc maxDepth (plusOne d) n v b ->
      defers enc maxDepth d (S n) (VFunction source call) b.

(** A chain of [n] functions that ignore their arguments. *)
Fixpoint chain (n : nat) (b : list byte) : value :=
  match n with
  | O => VBuffer b
  | S n' => VFunction "() => next" (fun _ _ _ => Fulfilled (chain n' b))
  end.

(** The bytes a chunk adds: none when it has length zero, its encoding when
    it is text. *)
Definition chunkBytes {P : Platform} (enc : option string) (c : chunk)
    : res (list byte) :=
  if ReadAll.isEmptyChunk c then Ok []
  else match c with
       | CString s => Buffer_new s enc
       | CBuffer b => Ok b
       end.

(** The bytes of a sequence of chunks, in the order given. *)
Fixpoint chunksBytes {P : Platform} (enc : option string) (cs : list chunk)
    : res (list byte) :=
  match cs with
  | [] => Ok []
  | c :: cs' =>
      do b <- chunkBytes enc c;
      do bs <- chunksBytes enc cs';
      Ok (b ++ bs)
  end.

(** A string that does not begin with white space. *)
Definition startsClean (s : string) : Prop :=
  match s with
  | EmptyString => True
  | String c _ => isWhiteSpace c = false
  end.

(** The depth counter as a number: [null] counts as 0, as do [undefined]
    and [NaN], which [asBufferInner] replaces by 0. *)
Definition depthOf (d : jsnum) : Z :=
  match toNumber d with
  | Some z => z
  | None => 0
  end.


(** * Further functions of [src/index.ts] *)

(** ** [isEmptyString] *)

(** ['' === toStringSafe(val).trim()] *)
Definition isEmptyString {P : Platform} (val : value) : res bool :=
  do s <- toStringSafe val "";
  match s with
  | Some s => Ok (isEmpty (trim s))
  | None => Throw (VError "TypeError" "Cannot read property 'trim' of undefined")
  end.

(** ** [compareValues], [compareValuesBy] *)

Section CompareValues.

(** The type the two values have, with its [!==], [>] and [<]. *)
Variable T : Type.
Variable strictNotEqual greaterThan lessThan : T -> T -> bool.

Definition compareValues (x y : T) : Z :=
  if strictNotEqual x y then
    if greaterThan x y then 1%Z
    else if lessThan x y then (-1)%Z
    else 0%Z
  else 0%Z.

Definition compareValuesBy {S : Type} (x y : S) (selector : S -> T) : Z :=
  compareValues (selector x) (selector y).

End CompareValues.

(** [a !== b] on depth-like numbers: [NaN] differs from everything, itself
    included; [null] and [undefined] are equal to themselves only. *)
Definition numberStrictNotEqual (a b : jsnum) : bool :=
  match a, b with
  | NUndefined, NUndefined => false
  | NNull, NNull => false
  | NNum x, NNum y => negb (x =? y)%Z
  | _, _ => true
  end.

(** [compareValues] on numbers ([undefined] and [null] allowed). *)
Definition compareNumbers : jsnum -> jsnum -> Z :=
  compareValues jsnum numberStrictNotEqual greater (fun a b => greater b a).

(** [s > t] on strings: code unit by code unit, a proper prefix being
    smaller. *)
Definition stringGreater (s t : string) : bool :=
  match String.compare s t with
  | Gt => true
  | _ => false
  end.

(** [compareValues] on strings. *)
Definition compareStrings : string -> string -> Z :=
  compareValues string (fun s t => negb (String.eqb s t)) stringGreater
                (fun s t => stringGreater t s).

(** ** Array-like values *)

(** [o[name]] in the properties of an object. *)
Fixpoint lookupProp (name : string) (props : list (string * data)) : data :=
  match props with
  | [] => DUndefined
  | (k, v) :: props' => if String.eqb k name then v else lookupProp name props'
  end.

(** The items [val[0]], ..., [val[length-1]] of a value for which
    [_.isArrayLike(val)] holds: arrays, strings (their characters), buffers
    (their bytes) and objects whose [length] is an integer from 0 to
    2^53 - 1; [None] for every other value. *)
Definition arrayItems (val : value) : option (list value) :=
  match val with
  | VData (DArr items) => Some (map VData items)
  | VData (DStr s) => Some (map (fun c => VString (String c "")) (list_ascii_of_string s))
  | VBuffer b => Some (map (fun x => VData (byteNum x)) b)
  | VData (DObj _ props) =>
      match lookupProp "length" props with
      | DNum n =>
          if ((0 <=? n) && (n <=? 9007199254740991))%Z
          then Some (map (fun i => VData (lookupProp (decimal (Z.of_nat i)) props))
                         (seq 0 (Z.to_nat n)))
          else None
      | _ => None
      end
  | _ => None
  end.

(** [_.isArrayLike(val)] *)
Definition isArrayLike (val : value) : bool :=
  match val with
  | VData (DArr _) | VData (DStr _) | VBuffer _ => true
  | VData (DObj _ props) =>
      match lookupProp "length" props with
      | DNum n => ((0 <=? n) && (n <=? 9007199254740991))%Z
      | _ => false
      end
  | _ => false
  end.

(** [val[i]] of an array-like value, whether [i] is below its length or
    not.  An object is taken to have its items under the decimal names of
    their indices. *)
Definition itemAt (val : value) (i : nat) : value :=
  match val with
  | VData (DArr items) => nth i (map VData items) VUndefined
  | VData (DStr s) =>
      match String.get i s with
      | Some c => VString (String c "")
      | None => VUndefined
      end
  | VBuffer b => nth i (map (fun x => VData (byteNum x)) b) VUndefined
  | VData (DObj _ props) => VData (lookupProp (decimal (Z.of_nat i)) props)
  | _ => VUndefined
  end.

(** ** [forEachAsync] *)

Section ForEachAsync.

(** What the actions act on. *)
Variable W : Type.

(** [Enumerable.from(items).toArray()] of the library [node-enumerable]. *)
Variable Enumerable_toArray : value -> res (list value).

(** The sequence as an array: itself when it is array-like. *)
Definition sequenceItems (items : value) : res (list value) :=
  match arrayItems items with
  | Some l => Ok l
  | None => Enumerable_toArray items
  end.

(** The [for] loop from index [i] on: [action item i w] is the world after
    [action.apply(thisArg, [item, i, items])] and what awaiting its result
    gives (an action that throws gives a rejection).  The actions act on the
    world and leave the sequence as it is. *)
Fixpoint forEachFrom (action : value -> nat -> W -> W * promise value value)
    (items : list value) (i : nat) (lastResult : value) (w : W)
    : W * promise value value :=
  match items with
  | [] => (w, Fulfilled lastResult)
  | item :: rest =>
      match action item i w with
      | (w', Fulfilled r) => forEachFrom action rest (S i) r w'
      | (w', Rejected e) => (w', Rejected e)
      | (w', Pending) => (w', Pending)
      end
  end.

Definition forEachAsync (items : value)
    (action : value -> nat -> W -> W * promise value value) (w : W)
    : W * promise value value :=
  match sequenceItems items with
  | Throw e => (w, Rejected e)
  | Ok l => forEachFrom action l 0 VUndefined w
  end.

End ForEachAsync.

(** ** [format], [formatArray] *)

Section Format.

Context {P : Platform}.

(** [String.prototype.toUpperCase], which leaves the code units 0..255 for
    some characters and is therefore not given here. *)
Variable toUpperCase : string -> string.

Variable Enumerable_toArray : value -> res (list value).

(** A digit, as the expression understands it: 0 to 9. *)
Definition isDigit (c : ascii) : bool :=
  ((48 <=? code c)%nat && (code c <=? 57)%nat).

(** The longest prefix of digits, and the rest. *)
Fixpoint takeDigits (s : string) : string * string :=
  match s with
  | EmptyString => (EmptyString, EmptyString)
  | String c s' =>
      if isDigit c
      then let (ds, rest) := takeDigits s' in (String c ds, rest)
      else (EmptyString, s)
  end.

(** The text before the first closing brace; [None] when there is none. *)
Fixpoint untilClose (s : string) : option string :=
  match s with
  | EmptyString => None
  | String c s' =>
      if (code c =? 125)%nat then Some EmptyString
      else match untilClose s' with
           | Some e => Some (String c e)
           | None => None
           end
  end.

(** A match of the placeholder expression (an opening brace, one or more
    digits, an optional colon, any characters but a closing brace, a closing
    brace): its three groups. *)
Record placeholder : Type := Placeholder {
  ph_index : string;
  ph_separator : bool;
  ph_expr : string
}.

(** The matched text. *)
Definition ph_match (ph : placeholder) : string :=
  "{" +:+ ph_index ph +:+ (if ph_separator ph then ":" else "") +:+ ph_expr ph +:+ "}".

(** The regular expression tried at the start of [s].  The digits and the
    expression are greedy and cannot give anything back that would help: the
    match succeeds exactly when an opening brace is followed by a digit and
    a closing brace comes somewhere after. *)
Definition matchPlaceholder (s : string) : option placeholder :=
  match s with
  | String c s1 =>
      if (code c =? 123)%nat then
        let (ds, s2) := takeDigits s1 in
        if isEmpty ds then None
        else
          let (sep, s3) :=
            match s2 with
            | String c2 s3 => if (code c2 =? 58)%nat then (true, s3) else (false, s2)
            | EmptyString => (false, s2)
            end in
          match untilClose s3 with
          | Some e => Some {| ph_index := ds; ph_separator := sep; ph_expr := e |}
          | None => None
          end
      else None
  | EmptyString => None
  end.

(** [parseInt] of a string of digits (exact below 2^53, and no array has an
    item at an index that is not). *)
Definition parseDigits (ds : string) : nat :=
  fold_left (fun n c => (10 * n + (code c - 48))%nat) (list_ascii_of_string ds) 0%nat.

(** [s.split(',')] *)
Fixpoint splitComma (s : string) : list string :=
  match s with
  | EmptyString => [EmptyString]
  | String c s' =>
      match splitComma s' with
      | h :: t => if (code c =? 44)%nat then EmptyString :: h :: t else String c h :: t
      | [] => [String c EmptyString]
      end
  end.

Definition undefinedHas (method : string) : value :=
  VError "TypeError" ("Cannot read property '" +:+ method +:+ "' of undefined").

(** One format provider applied to [resultValue]. *)
Definition applyProvider (fp : string) (resultValue : value) : res value :=
  if String.eqb fp "ending_space" then
    do s <- toStringSafe resultValue "";
    match s with
    | Some s => Ok (VString (if isEmpty s then s else s +:+ " "))
    | None => Ok (VString ("undefined" +:+ " "))
    end
  else if String.eqb fp "leading_space" then
    do s <- toStringSafe resultValue "";
    match s with
    | Some s => Ok (VString (if isEmpty s then s else " " +:+ s))
    | None => Ok (VString (" " +:+ "undefined"))
    end
  else if String.eqb fp "lower" then
    do s <- toStringSafe resultValue "";
    match s with
    | Some s => Ok (VString (toLowerCase s))
    | None => Throw (undefinedHas "toLowerCase")
    end
  else if String.eqb fp "trim" then
    do s <- toStringSafe resultValue "";
    match s with
    | Some s => Ok (VString (trim s))
    | None => Throw (undefinedHas "trim")
    end
  else if String.eqb fp "upper" then
    do s <- toStringSafe resultValue "";
    match s with
    | Some s => Ok (VString (toUpperCase s))
    | None => Throw (undefinedHas "toUpperCase")
    end
  else if String.eqb fp "surround" then
    do s <- toStringSafe resultValue "";
    match s with
    | Some s => Ok (VString (if isEmpty s then s else "'" +:+ s +:+ "'"))
    | None => Ok (VString ("'" +:+ "" +:+ "'"))
    end
  else Ok resultValue.

(** [toStringSafe(formatExpr).split(',').map(x => x.toLowerCase().trim())
    .filter(x => x)] *)
Definition formatProviders (formatExpr : string) : list string :=
  List.filter (fun x => negb (isEmpty x))
              (map (fun x => trim (toLowerCase x)) (splitComma formatExpr)).

Fixpoint applyProviders (fps : list string) (resultValue : value) : res value :=
  match fps with
  | [] => Ok resultValue
  | fp :: fps' => do r <- applyProvider fp resultValue; applyProviders fps' r
  end.

(** The replacer [(match, index, formatSeparator, formatExpr) => ...], with
    [args i] for [args[i]]; what it returns is turned into a string by
    [replace]. *)
Definition replacer (args : nat -> value) (ph : placeholder) : res string :=
  let index := parseDigits (ph_index ph) in
  let resultValue := args index in
  do resultValue <- (if ph_separator ph
                     then applyProviders (formatProviders (ph_expr ph)) resultValue
                     else Ok resultValue);
  match resultValue with
  | VData DUndefined => Ok (ph_match ph)
  | _ =>
      do s <- toStringSafe resultValue "";
      Ok (match s with Some s => s | None => "undefined" end)
  end.

(** [formatStr.replace(expression, replacer)] with the global flag: the
    expression is tried at every position that no earlier match covers, from
    left to right; [skip] counts the characters of the last match still to
    pass. *)
Fixpoint replacePlaceholders (args : nat -> value) (s : string) (skip : nat) : res string :=
  match s with
  | EmptyString => Ok EmptyString
  | String c s' =>
      match skip with
      | S k => replacePlaceholders args s' k
      | O =>
          match matchPlaceholder s with
          | Some ph =>
              do r <- replacer args ph;
              do rest <- replacePlaceholders args s' (String.length (ph_match ph) - 1);
              Ok (r +:+ rest)
          | None =>
              do rest <- replacePlaceholders args s' 0;
              Ok (String c rest)
          end
      end
  end.

Definition replaceIn (formatStr : option string) (args : nat -> value) : res string :=
  match formatStr with
  | Some f => replacePlaceholders args f 0
  | None => Throw (undefinedHas "replace")
  end.

(** [formatArray(formatStr, args)]: an array-like [args] is indexed as it
    is, anything else is made an array first. *)
Definition formatArray (formatStr : value) (args : value) : res string :=
  do formatStr <- toStringSafe formatStr "";
  if isArrayLike args then replaceIn formatStr (itemAt args)
  else
    do items <- Enumerable_toArray args;
    replaceIn formatStr (fun i => nth i items VUndefined).

(** [format(formatStr, ...args)]: the rest parameter is an array. *)
Definition format (formatStr : value) (args : list value) : res string :=
  do formatStr <- toStringSafe formatStr "";
  replaceIn formatStr (fun i => nth i args VUndefined).

End Format.

(** ** [uuid], [guid] *)

Inductive uuidGenerator : Type := UUID_v1 | UUID_v4 | UUID_v5.

Section Uuid.

Context {P : Platform}.

(** The generators of the library [uuid], applied to the arguments. *)
Variable UUID : uuidGenerator -> list value -> res value.

Definition uuid (ver : value) (args : list value) : res value :=
  do ver <- normalizeString ver None;
  let func :=
    if oneOf [""; "4"; "v4"] ver then Some UUID_v4
    else if oneOf ["1"; "v1"] ver then Some UUID_v1
    else if oneOf ["5"; "v5"] ver then Some UUID_v5
    else None in
  match func with
  | None => Throw (VError "Error" ("Version '" +:+ ver +:+ "' is not supported!"))
  | Some func => UUID func args
  end.

(** [guid]: an alias. *)
Definition guid (ver : value) (args : list value) : res value := uuid ver args.

End Uuid.

(** ** [doesMatch] *)

Section DoesMatch.

Context {P : Platform}.

(** [Minimatch(val, pattern, options)], as a truth value. *)
Variable Minimatch : option string -> option string -> res bool.

Fixpoint anyMatch (val : option string) (patterns : list (option string)) : res bool :=
  match patterns with
  | [] => Ok false
  | p :: patterns' =>
      do m <- Minimatch val p;
      if m then Ok true else anyMatch val patterns'
  end.

Definition doesMatch (val patterns : value) : res bool :=
  do val <- toStringSafe val "";
  do patterns <- ExecFile.mapM (fun p => toStringSafe p "") (asArray patterns VUndefined);
  anyMatch val patterns.

End DoesMatch.

(** ** [SESSION_DISPOSER] *)

(** [dispose]: every key of [Object.keys(SESSION)] is deleted in turn. *)
Definition dispose (SESSION : gmap string value) : gmap string value :=
  fold_left (fun session key => delete key session) (map fst (map_to_list SESSION)) SESSION.

(** ** [isBinaryContent] *)

Module BinaryContent.

(** What [IsBinaryFile(data, data.length, callback)] does: the calls of the
    callback it makes before it returns, what it throws if it throws, and the
    calls of the callback that come later. *)
Record run : Type := Run {
  before : list (value * value);
  thrown : option value;
  later : list (value * value)
}.

(** [resolve] and [reject] of the promise, recorded. *)
Definition resolve : CompletedAction.callback (list CompletedAction.called) :=
  fun result log => (log ++ [CompletedAction.Resolve result], None).

Definition reject : CompletedAction.callback (list CompletedAction.called) :=
  fun reason log => (log ++ [CompletedAction.Reject reason], None).

(** Only the first call of [resolve] or [reject] settles the promise. *)
Definition settled (log : list CompletedAction.called) : promise value value :=
  match log with
  | [] => Pending
  | CompletedAction.Resolve v :: _ => Fulfilled v
  | CompletedAction.Reject e :: _ => Rejected e
  end.

(** Reading [data.length]: it throws when [data] is [null] or
    [undefined]. *)
Definition lengthOf (data : value) : option value :=
  match data with
  | VData DUndefined =>
      Some (VError "TypeError" "Cannot read property 'length' of undefined")
  | VData DNull =>
      Some (VError "TypeError" "Cannot read property 'length' of null")
  | _ => None
  end.

(** The calls of [COMPLETED], in the order they happen: the callback's
    calls, and [COMPLETED(e)] of the [catch].  [IsBinaryFile data] is the
    run of [IsBinaryFile(data, data.length, callback)]. *)
Definition signals (IsBinaryFile : value -> run) (data : value)
    : list (value * value) :=
  match lengthOf data with
  | Some e => [(e, VUndefined)]
  | None =>
      let r := IsBinaryFile data in
      before r ++
      match thrown r with
      | Some e => [(e, VUndefined)]
      | None => []
      end ++
      later r
  end.

(** The log of the promise's [resolve] and [reject] after
    [isBinaryContent(data)] and all that follows from it. *)
Definition calls (IsBinaryFile : value -> run) (data : value)
    : list CompletedAction.called :=
  CompletedAction.world
    (CompletedAction.invoke (Some resolve) (Some reject)
       (signals IsBinaryFile data) (CompletedAction.created [])).

Definition isBinaryContent (IsBinaryFile : value -> run) (data : value)
    : promise value value :=
  settled (calls IsBinaryFile data).

End BinaryContent.


(** ** More notions the statements use *)

(** Every character is white space. *)
Definition allWhite (s : string) : bool :=
  forallb isWhiteSpace (list_ascii_of_string s).

(** How often a trace settles the promise: the calls of [resolve] and
    [reject] in it. *)
Fixpoint settles (t : list ReadAll.effect) : nat :=
  match t with
  | [] => 0
  | ReadAll.CallResolve _ :: t' => S (settles t')
  | ReadAll.CallReject _ :: t' => S (settles t')
  | _ :: t' => settles t'
  end.

(** Data in which every object has a [toString] that returns a string, as
    every object literal has. *)
Fixpoint tame (d : data) : bool :=
  match d with
  | DArr items => forallb tame items
  | DObj h _ =>
      match h_toString h with
      | ReturnsString _ => true
      | _ => false
      end
  | _ => true
  end.

(** [defersTo enc maxDepth d n v v']: [v] is [n] deferred-value functions
    deep and what the innermost returns is [v'], the function at depth [d]
    being called with [(enc, d, maxDepth)]. *)
Inductive defersTo (enc : option string) (maxDepth : jsnum)
    : jsnum -> nat -> value -> value -> Prop :=
  | defersTo_here d v :
      defersTo enc maxDepth d 0 v v
  | defersTo_function d n source call v v' :
      call enc d maxDepth = Fulfilled v ->
      defersTo enc maxDepth (plusOne d) n v v' ->
      defersTo enc maxDepth d (S n) (VFunction source call) v'.

(** [n] functions that ignore their arguments, around [v]. *)
Fixpoint wrap (n : nat) (v : value) : value :=
  match n with
  | O => v
  | S n' => VFunction "() => next" (fun _ _ _ => Fulfilled (wrap n' v))
  end.

(** What holds of the state of [readAll] at every moment: before the
    completion nothing has settled; after the completion exactly one call
    has settled, and no listener is attached.  Listeners are only ever
    attached to a readable stream. *)
Definition sound (stream : value) (st : ReadAll.state) : Prop :=
  (ReadAll.completedInvoked st = false /\ settles (ReadAll.trace st) = 0%nat /\
   (ReadAll.dataAttached st = true \/ ReadAll.endAttached st = true \/
    ReadAll.errorAttached st = true ->
    isReadable stream = true)) \/
  (ReadAll.completedInvoked st = true /\ settles (ReadAll.trace st) = 1%nat /\
   ReadAll.dataAttached st = false /\ ReadAll.endAttached st = false /\
   ReadAll.errorAttached st = false).

(** The depth counter [asBufferInner] works with: 0 for [undefined] and
    [NaN]. *)
Definition depthIn (d : jsnum) : jsnum := if isNaN d then NNum 0 else d.

(** [buff] is a buffer, and so is everything [resolve] was called with. *)
Definition buffersOnly (st : ReadAll.state) : Prop :=
  isBuffer (ReadAll.buff st) = true /\
  forall v, In (ReadAll.CallResolve v) (ReadAll.trace st) -> isBuffer v = true.

(** No opening brace occurs in the string. *)
Definition braceFree (s : string) : bool :=
  forallb (fun c => negb (code c =? 123)%nat) (list_ascii_of_string s).

(** The action that notes the item and the index it was called with and is
    fulfilled with what [f] makes of the item. *)
Definition noting (f : value -> value)
    : value -> nat -> list (value * nat) -> list (value * nat) * promise value value :=
  fun item i log => (log ++ [(item, i)], Fulfilled (f item)).

(** One or more digits. *)
Definition digits (ds : string) : bool :=
  negb (isEmpty ds) && forallb isDigit (list_ascii_of_string ds).

(** No closing brace occurs in the string. *)
Definition closeFree (s : string) : bool :=
  forallb (fun c => negb (code c =? 125)%nat) (list_ascii_of_string s).

(** The string does not begin with a digit or a colon. *)
Definition startsPlain (s : string) : bool :=
  match s with
  | EmptyString => true
  | String c _ => negb (isDigit c) && negb (code c =? 58)%nat
  end.

(** The groups are ones the placeholder expression can capture: digits for
    the index, no closing brace in the expression, and, when there is no
    colon, an expression that does not go on with a digit or a colon. *)
Definition capturable (ph : placeholder) : bool :=
  digits (ph_index ph) && closeFree (ph_expr ph) &&
  (ph_separator ph || startsPlain (ph_expr ph)).

(** What [replace] inserts for an argument: the placeholder itself for
    [undefined], the string [toStringSafe] gives otherwise. *)
Definition inserted {P : Platform} (placeholderText : string) (arg : value) : res string :=
  match arg with
  | VData DUndefined => Ok placeholderText
  | _ =>
      do s <- toStringSafe arg "";
      Ok (match s with Some s => s | None => "undefined" end)
  end.

(** A [Minimatch] that never throws, given by its truth table. *)
Definition matching (m : string -> string -> bool)
    : option string -> option string -> res bool :=
  fun val pattern =>
    match val, pattern with
    | Some v, Some p => Ok (m v p)
    | _, _ => Throw (VError "TypeError" "glob pattern string required")
    end.

(** A list of patterns some of which are [null]. *)
Definition patternData (p : option string) : data :=
  match p with
  | Some p => DStr p
  | None => DNull
  end.

Fixpoint present {A : Type} (l : list (option A)) : list A :=
  match l with
  | [] => []
  | Some a :: l' => a :: present l'
  | None :: l' => present l'
  end.

(** [String.prototype.toUpperCase] on strings of ASCII characters, for the
    examples: a..z move down by 32. *)
Definition upperChar (c : ascii) : ascii :=
  let n := code c in
  if ((97 <=? n)%nat && (n <=? 122)%nat) then ascii_of_nat (n - 32) else c.

Fixpoint asciiUpperCase (s : string) : string :=
  match s with
  | EmptyString => EmptyString
  | String c s' => String (upperChar c) (asciiUpperCase s')
  end.

(** * Properties *)

(** ** Strings *)

Lemma lowerChar_idempotent (c : ascii) : lowerChar (lowerChar c) = lowerChar c.
Proof. destruct c as [[] [] [] [] [] [] [] []]; reflexivity. Qed.

Lemma isWhiteSpace_lowerChar (c : ascii) : isWhiteSpace (lowerChar c) = isWhiteSpace c.
Proof. destruct c as [[] [] [] [] [] [] [] []]; reflexivity. Qed.

Lemma toLowerCase_idempotent (s : string) : toLowerCase (toLowerCase s) = toLowerCase s.
Proof.
  induction s as [|c s IH]; simpl; [reflexivity|].
  now rewrite lowerChar_idempotent, IH.
Qed.

Lemma toLowerCase_trimStart (s : string) :
  toLowerCase (trimStart s) = trimStart (toLowerCase s).
Proof.
  induction s as [|c s IH]; simpl; [reflexivity|].
  rewrite isWhiteSpace_lowerChar.
  destruct (isWhiteSpace c); [exact IH | reflexivity].
Qed.

Lemma toLowerCase_trimEnd (s : string) :
  toLowerCase (trimEnd s) = trimEnd (toLowerCase s).
Proof.
  induction s as [|c s IH]; simpl; [reflexivity|].
  rewrite <- IH, isWhiteSpace_lowerChar.
  destruct (trimEnd s) as [|c' t]; simpl.
  - destruct (isWhiteSpace c); reflexivity.
  - reflexivity.
Qed.

Lemma toLowerCase_trim (s : string) : toLowerCase (trim s) = trim (toLowerCase s).
Proof. unfold trim. now rewrite toLowerCase_trimEnd, toLowerCase_trimStart. Qed.

Lemma trimStart_startsClean (s : string) : startsClean (trimStart s).
Proof.
  induction s as [|c s IH]; simpl; [exact I|].
  destruct (isWhiteSpace c) eqn:E; [exact IH | exact E].
Qed.

Lemma trimEnd_startsClean (s : string) : startsClean s -> startsClean (trimEnd s).
Proof.
  destruct s as [|c s]; simpl; [trivial|].
  intros E. destruct (trimEnd s); [rewrite E|]; exact E.
Qed.

Lemma trimStart_clean (s : string) : startsClean s -> trimStart s = s.
Proof. destruct s as [|c s]; simpl; [trivial|]. now intros ->. Qed.

Lemma trimEnd_idempotent (s : string) : trimEnd (trimEnd s) = trimEnd s.
Proof.
  induction s as [|c s IH]; simpl; [reflexivity|].
  destruct (trimEnd s) as [|c' t] eqn:E.
  - destruct (isWhiteSpace c) eqn:Ec; simpl; [reflexivity|].
    now rewrite Ec.
  - change (trimEnd (String c (String c' t)))
      with (match trimEnd (String c' t) with
            | EmptyString => if isWhiteSpace c then EmptyString else String c EmptyString
            | t' => String c t'
            end).
    now rewrite IH.
Qed.

Lemma trim_idempotent (s : string) : trim (trim s) = trim s.
Proof.
  unfold trim at 1.
  rewrite trimStart_clean.
  - unfold trim. apply trimEnd_idempotent.
  - apply trimEnd_startsClean, trimStart_startsClean.
Qed.

Lemma encodingOf_idempotent (enc : option string) :
  encodingOf (encodingOf enc) = encodingOf enc.
Proof.
  destruct enc as [e|]; [|reflexivity].
  unfold encodingOf. cbv zeta.
  destruct (isEmpty (trim (toLowerCase e))) eqn:E; [reflexivity|].
  now rewrite toLowerCase_trim, toLowerCase_idempotent, trim_idempotent, E.
Qed.

Section Normalizer.

Context {P : Platform}.

(** ** The encoding argument *)

Lemma toStringSafe_string (s defaultVal : string) :
  toStringSafe (VString s) defaultVal = Ok (Some s).
Proof. reflexivity. Qed.

Lemma normalizeEncoding_encodingOf (enc : option string) :
  ReadAll.normalizeEncoding enc = Ok (encodingOf enc).
Proof.
  destruct enc as [e|]; [|reflexivity].
  unfold ReadAll.normalizeEncoding, normalizeString, encodingOf.
  rewrite toStringSafe_string. simpl.
  now destruct (isEmpty (trim (toLowerCase e))).
Qed.

(** ** [asBufferInner], one level *)

Lemma asBufferInner_unfold (val : value) (enc : option string) (funcDepth maxDepth : jsnum) :
  asBufferInner val enc funcDepth maxDepth =
  let enc := encodingOf enc in
  let funcDepth := if isNaN funcDepth then NNum 0 else funcDepth in
  let maxDepth := maxDepthOf maxDepth in
  if greater funcDepth maxDepth then Rejected (maximumDepthReached maxDepth)
  else if isBuffer val || isNil val then Fulfilled val
  else
    match val with
    | VFunction _ call =>
        match call enc funcDepth maxDepth with
        | Fulfilled v => asBufferInner v enc (plusOne funcDepth) maxDepth
        | Rejected e => Rejected e
        | Pending => Pending
        end
    | _ =>
        if isReadable val then
          match ReadAll.readAll val None with
          | Ok p => p
          | Throw e => Rejected e
          end
        else if isObject val then settle (do j <- JSON_stringify val; newBuffer j enc)
        else settle (do s <- toStringSafe val ""; newBuffer s enc)
    end.
Proof.
  destruct val; simpl; rewrite normalizeEncoding_encodingOf; reflexivity.
Qed.

Lemma maxDepthOf_idempotent (m : jsnum) : maxDepthOf (maxDepthOf m) = maxDepthOf m.
Proof. destruct m; reflexivity. Qed.

Lemma limit_maxDepthOf (m : jsnum) : limit (maxDepthOf m) = limit m.
Proof. unfold limit. now rewrite maxDepthOf_idempotent. Qed.

Lemma toNumber_maxDepthOf (m : jsnum) : toNumber (maxDepthOf m) = Some (limit m).
Proof. destruct m; reflexivity. Qed.

Lemma asBufferInner_defers (n : nat) :
  forall (enc : option string) (maxDepth d : jsnum) (v : value) (b : list byte),
    defers (encodingOf enc) (maxDepthOf maxDepth) (if isNaN d then NNum 0 else d) n v b ->
    asBufferInner v enc d maxDepth =
    if (depthOf d + Z.of_nat n <=? limit maxDepth)%Z
    then Fulfilled (VBuffer b)
    else Rejected (maximumDepthReached (maxDepthOf maxDepth)).
Proof.
  induction n as [|n IH]; intros enc maxDepth d v b H; inversion H; subst;
    rewrite asBufferInner_unfold; cbv zeta.
  - unfold greater. rewrite toNumber_maxDepthOf.
    replace (toNumber (if isNaN d then NNum 0 else d)) with (Some (depthOf d))
      by (destruct d; reflexivity).
    destruct (Z.ltb_spec (limit maxDepth) (depthOf d));
      destruct (Z.leb_spec (depthOf d + Z.of_nat 0) (limit maxDepth));
      try lia; reflexivity.
  - unfold greater. rewrite toNumber_maxDepthOf.
    replace (toNumber (if isNaN d then NNum 0 else d)) with (Some (depthOf d))
      by (destruct d; reflexivity).
    destruct (Z.ltb_spec (limit maxDepth) (depthOf d)).
    + destruct (Z.leb_spec (depthOf d + Z.of_nat (S n)) (limit maxDepth));
        [lia | reflexivity].
    + simpl. rewrite H1.
      rewrite (IH (encodingOf enc) (maxDepthOf maxDepth)
                  (plusOne (if isNaN d then NNum 0 else d)) v0 b).
      * rewrite limit_maxDepthOf, maxDepthOf_idempotent.
        replace (depthOf (plusOne (if isNaN d then NNum 0 else d))) with (depthOf d + 1)%Z
          by (destruct d; reflexivity).
        replace (depthOf d + 1 + Z.of_nat n)%Z with (depthOf d + Z.of_nat (S n))%Z by lia.
        reflexivity.
      * rewrite encodingOf_idempotent, maxDepthOf_idempotent.
        replace (if isNaN (plusOne (if isNaN d then NNum 0 else d))
                 then NNum 0 else plusOne (if isNaN d then NNum 0 else d))
          with (plusOne (if isNaN d then NNum 0 else d))
          by (destruct d; reflexivity).
        assumption.
Qed.

Lemma defers_chain (enc : option string) (maxDepth : jsnum) (n : nat) :
  forall (d : jsnum) (b : list byte), defers enc maxDepth d n (chain n b) b.
Proof.
  induction n as [|n IH]; intros d b; simpl.
  - constructor.
  - econstructor; [reflexivity | apply IH].
Qed.

(** C2. A chain of [n] deferred-value functions that ends in the buffer [b]
    is resolved to [b] when [n] is at most the depth limit ([maxDepth], 63
    when none is given), and is rejected with the maximum-depth error when
    [n] is larger. *)
Theorem asBuffer_chain_depth (v : value) (enc : option string) (maxDepth : jsnum)
    (n : nat) (b : list byte) :
  defers (encodingOf enc) (maxDepthOf maxDepth) NNull n v b ->
  asBuffer v enc maxDepth =
  if (Z.of_nat n <=? limit maxDepth)%Z
  then Fulfilled (VBuffer b)
  else Rejected (maximumDepthReached (maxDepthOf maxDepth)).
Proof.
  intros H. unfold asBuffer.
  now rewrite (asBufferInner_defers n enc maxDepth NNull v b H).
Qed.

(** C3. A buffer is returned as it is, whatever the encoding, and so are
    [null] and [undefined]. *)
Theorem asBuffer_buffer_or_nil_unchanged :
  (forall (b : list byte) (enc : option string),
      asBuffer (VBuffer b) enc NUndefined = Fulfilled (VBuffer b)) /\
  (forall enc : option string, asBuffer VNull enc NUndefined = Fulfilled VNull) /\
  (forall enc : option string, asBuffer VUndefined enc NUndefined = Fulfilled VUndefined).
Proof.
  repeat split; intros; unfold asBuffer; rewrite asBufferInner_unfold; reflexivity.
Qed.

(** With an explicit limit the answer is the same as long as the limit is
    not negative; below zero the depth check, which comes first, rejects. *)
Lemma asBuffer_unchanged_within_limit (val : value) (enc : option string) (maxDepth : jsnum) :
  isBuffer val || isNil val = true ->
  asBuffer val enc maxDepth =
  if (0 <=? limit maxDepth)%Z then Fulfilled val
  else Rejected (maximumDepthReached (maxDepthOf maxDepth)).
Proof.
  intros H. unfold asBuffer. rewrite asBufferInner_unfold. cbv zeta.
  unfold greater. rewrite toNumber_maxDepthOf. simpl. rewrite H.
  destruct (Z.ltb_spec (limit maxDepth) 0); destruct (Z.leb_spec 0 (limit maxDepth));
    try lia; reflexivity.
Qed.

End Normalizer.

(** ** The completion guard *)

Section Guard.

Import CompletedAction.

Lemma createCompletedAction_completes {V : Type} (resolve reject : option (callback V))
    (err result : value) (st : state V) :
  completedInvoked (fst (createCompletedAction resolve reject err result st)) = true.
Proof.
  unfold createCompletedAction.
  destruct (completedInvoked st) eqn:E; [exact E|].
  destruct (truthy err).
  - destruct reject as [r|]; [destruct (r err _)|]; reflexivity.
  - destruct resolve as [r|]; [destruct (r result _)|]; reflexivity.
Qed.

(** Once [completedInvoked] is set no call changes anything. *)
Lemma invoke_after_completion {V : Type} (resolve reject : option (callback V))
    (calls : list (value * value)) (st : state V) :
  completedInvoked st = true -> invoke resolve reject calls st = st.
Proof.
  revert st. induction calls as [|[err result] calls IH]; intros st H; simpl.
  - reflexivity.
  - unfold createCompletedAction. rewrite H. simpl. now apply IH.
Qed.

(** A sequence of calls has the effect of its first call. *)
Lemma invoke_first_call {V : Type} (resolve reject : option (callback V))
    (err result : value) (calls : list (value * value)) (st : state V) :
  invoke resolve reject ((err, result) :: calls) st =
  fst (createCompletedAction resolve reject err result st).
Proof.
  simpl. apply invoke_after_completion, createCompletedAction_completes.
Qed.

Variable W : Type.

(** C1. Whatever the two callbacks do and whatever the sequence of calls of
    the action is, the callbacks are called as the first call says and never
    again: a truthy [err] calls [reject] once with [err] (nothing, when no
    [reject] was given), any other [err] calls [resolve] once with [result];
    the world is what that one call made of it. *)
Theorem createCompletedAction_only_first_call (resolve : callback W)
    (reject : option (callback W)) (calls : list (value * value)) (w : W) :
  let st := invoke (Some (observed Resolve resolve))
                   (option_map (observed Reject) reject)
                   calls (created (w, [])) in
  snd (world st) =
    match calls with
    | [] => []
    | (err, result) :: _ =>
        if truthy err
        then match reject with Some _ => [Reject err] | None => [] end
        else [Resolve result]
    end /\
  fst (world st) =
    match calls with
    | [] => w
    | (err, result) :: _ =>
        if truthy err
        then match reject with Some reject => fst (reject err w) | None => w end
        else fst (resolve result w)
    end.
Proof.
  destruct calls as [|[err result] calls]; cbv zeta.
  - split; reflexivity.
  - rewrite invoke_first_call. unfold createCompletedAction, created, observed. simpl.
    destruct (truthy err).
    + destruct reject as [r|]; simpl; [destruct (r err w)|]; split; reflexivity.
    + destruct (resolve result w); split; reflexivity.
Qed.

End Guard.

(** The spec's scenario: an error first, a success second, and the other way
    round. *)
Example createCompletedAction_twice :
  let reject := Some (CompletedAction.observed CompletedAction.Reject
                        (fun _ (n : nat) => (S n, None))) in
  let resolve := Some (CompletedAction.observed CompletedAction.Resolve
                         (fun _ (n : nat) => (S n, None))) in
  CompletedAction.world
    (CompletedAction.invoke resolve reject
       [(VError "Error" "first", VUndefined); (VNull, VString "second")]
       (CompletedAction.created (0%nat, []))) =
  (1%nat, [CompletedAction.Reject (VError "Error" "first")]) /\
  CompletedAction.world
    (CompletedAction.invoke resolve reject
       [(VNull, VString "first"); (VError "Error" "second", VUndefined)]
       (CompletedAction.created (0%nat, []))) =
  (1%nat, [CompletedAction.Resolve (VString "first")]).
Proof. split; reflexivity. Qed.

(** ** The stream aggregator *)

Section Aggregator.

Import ReadAll.

Context {P : Platform}.

Variable stream : value.
Variable enc : option string.

Lemma deliver_app (a b : list (stream_event value)) (st : state) :
  deliver stream enc (a ++ b) st = deliver stream enc b (deliver stream enc a st).
Proof. unfold deliver. apply fold_left_app. Qed.

(** With no listener attached no event does anything. *)
Lemma deliver_detached (evs : list (stream_event value)) (st : state) :
  dataAttached st = false -> endAttached st = false -> errorAttached st = false ->
  deliver stream enc evs st = st.
Proof.
  intros Hd He Hr. induction evs as [|ev evs IH]; simpl; [reflexivity|].
  replace (emit stream enc ev st) with st; [exact IH|].
  destruct ev; simpl; [rewrite Hd | rewrite He | rewrite Hr]; reflexivity.
Qed.

(** One data event appends the bytes of its chunk to [buff]. *)
Lemma dataListener_appends (c : chunk) (acc b : list byte) (st : state) :
  buff st = VBuffer acc ->
  chunkBytes enc c = Ok b ->
  dataListener stream enc c st = setBuff (VBuffer (acc ++ b)) st.
Proof.
  unfold chunkBytes, dataListener. intros Hb Hc.
  destruct (isEmptyChunk c).
  - injection Hc as Hc. subst b. rewrite app_nil_r, <- Hb. now destruct st.
  - destruct c as [b0|s0].
    + injection Hc as Hc. subst b0. simpl. now rewrite Hb.
    + rewrite Hc. simpl. now rewrite Hb.
Qed.

(** Data events append to [buff], in the order they are delivered. *)
Lemma deliver_data (cs : list chunk) :
  forall (acc bs : list byte) (st : state),
    buff st = VBuffer acc ->
    dataAttached st = true ->
    chunksBytes enc cs = Ok bs ->
    deliver stream enc (map SData cs) st = setBuff (VBuffer (acc ++ bs)) st.
Proof.
  induction cs as [|c cs IH]; intros acc bs st Hb Hd Hcs; simpl in *.
  - injection Hcs as Hbs. subst bs. rewrite app_nil_r, <- Hb. now destruct st.
  - destruct (chunkBytes enc c) as [b|] eqn:Ec; simpl in Hcs; [|discriminate].
    destruct (chunksBytes enc cs) as [bs'|] eqn:E; simpl in Hcs; [|discriminate].
    injection Hcs as Hbs. subst bs.
    rewrite Hd, (dataListener_appends c acc b st Hb Ec).
    rewrite (IH (acc ++ b) bs' (setBuff (VBuffer (acc ++ b)) st));
      [|reflexivity|exact Hd|reflexivity].
    now rewrite <- app_assoc.
Qed.

End Aggregator.

Section Aggregation.

Import ReadAll.

Context {P : Platform}.

Lemma executor_readable (evs : list (stream_event value)) :
  executor (VReadable evs) =
  {| buff := VBuffer []; completedInvoked := false;
     dataAttached := true; endAttached := true; errorAttached := true;
     trace := [CallOn error_ev; CallOnce end_ev; CallOn data_ev] |}.
Proof. reflexivity. Qed.

(** The first [COMPLETED] on a stream: the flag is set, the three listeners
    are taken off in the order data, end, error, and the promise is
    settled. *)
Lemma COMPLETED_first (evs : list (stream_event value)) (err : value) (st : state) :
  completedInvoked st = false ->
  COMPLETED (VReadable evs) err st =
  {| buff := buff st; completedInvoked := true;
     dataAttached := false; endAttached := false; errorAttached := false;
     trace := trace st ++
              [CallTryRemoveListener data_ev; CallTryRemoveListener end_ev;
               CallTryRemoveListener error_ev;
               if truthy err then CallReject err else CallResolve (buff st)] |}.
Proof.
  intros H. unfold COMPLETED. rewrite H.
  destruct (truthy err); unfold call, tryRemoveListener, setAttached, setCompletedInvoked;
    simpl; repeat rewrite <- app_assoc; reflexivity.
Qed.

(** Every later [COMPLETED] does nothing. *)
Lemma COMPLETED_again (stream err : value) (st : state) :
  completedInvoked st = true -> COMPLETED stream err st = st.
Proof. intros H. unfold COMPLETED. now rewrite H. Qed.

(** C4. A stream that emits the chunks [cs] and then [end]: the promise is
    fulfilled with the bytes of the chunks in the order delivered (a
    zero-length chunk adds nothing, a textual chunk is encoded with the
    requested encoding first), [resolve] is called once and [reject] never,
    and the three listeners are off; what the stream emits after [end]
    changes nothing.  The encoding is one the byte-encoding step accepts for
    the textual chunks. *)
Theorem readAll_chunks_then_end (cs : list chunk) (rest : list (stream_event value))
    (enc : option string) (bs : list byte) :
  chunksBytes (encodingOf enc) cs = Ok bs ->
  readAll (VReadable (map SData cs ++ SEnd :: rest)) enc = Ok (Fulfilled (VBuffer bs)) /\
  run (VReadable (map SData cs ++ SEnd :: rest)) enc =
  Ok {| buff := VBuffer bs; completedInvoked := true;
        dataAttached := false; endAttached := false; errorAttached := false;
        trace := [CallOn error_ev; CallOnce end_ev; CallOn data_ev;
                  CallTryRemoveListener data_ev; CallTryRemoveListener end_ev;
                  CallTryRemoveListener error_ev; CallResolve (VBuffer bs)] |}.
Proof.
  intros Hcs.
  assert (Hrun : run (VReadable (map SData cs ++ SEnd :: rest)) enc =
    Ok {| buff := VBuffer bs; completedInvoked := true;
          dataAttached := false; endAttached := false; errorAttached := false;
          trace := [CallOn error_ev; CallOnce end_ev; CallOn data_ev;
                    CallTryRemoveListener data_ev; CallTryRemoveListener end_ev;
                    CallTryRemoveListener error_ev; CallResolve (VBuffer bs)] |}).
  { unfold run. rewrite normalizeEncoding_encodingOf. simpl bind.
    unfold eventsOf. generalize (map SData cs ++ SEnd :: rest) at 1 3. intros evs.
    rewrite executor_readable, deliver_app.
    rewrite (deliver_data (VReadable evs) (encodingOf enc) cs [] bs);
      [|reflexivity|reflexivity|exact Hcs].
    change (deliver (VReadable evs) (encodingOf enc) (SEnd :: rest) ?st)
      with (deliver (VReadable evs) (encodingOf enc) rest
              (emit (VReadable evs) (encodingOf enc) SEnd st)).
    simpl emit. unfold endListener. rewrite COMPLETED_first by reflexivity.
    rewrite deliver_detached by reflexivity. reflexivity. }
  split; [|exact Hrun].
  unfold readAll. rewrite Hrun. reflexivity.
Qed.

(** C5. A stream that emits the chunks [cs] and then an [error] event with
    a truthy [err]: the promise is rejected with [err] itself, [resolve] is
    never called, the three listeners are taken off, once each, and what the
    stream emits afterwards changes nothing.  The chunks before the error are
    ones the byte-encoding step accepts. *)
Theorem readAll_error_before_end (cs : list chunk) (err : value)
    (rest : list (stream_event value)) (enc : option string) (bs : list byte) :
  chunksBytes (encodingOf enc) cs = Ok bs ->
  truthy err = true ->
  readAll (VReadable (map SData cs ++ SError err :: rest)) enc = Ok (Rejected err) /\
  run (VReadable (map SData cs ++ SError err :: rest)) enc =
  Ok {| buff := VBuffer bs; completedInvoked := true;
        dataAttached := false; endAttached := false; errorAttached := false;
        trace := [CallOn error_ev; CallOnce end_ev; CallOn data_ev;
                  CallTryRemoveListener data_ev; CallTryRemoveListener end_ev;
                  CallTryRemoveListener error_ev; CallReject err] |}.
Proof.
  intros Hcs Herr.
  assert (Hrun : run (VReadable (map SData cs ++ SError err :: rest)) enc =
    Ok {| buff := VBuffer bs; completedInvoked := true;
          dataAttached := false; endAttached := false; errorAttached := false;
          trace := [CallOn error_ev; CallOnce end_ev; CallOn data_ev;
                    CallTryRemoveListener data_ev; CallTryRemoveListener end_ev;
                    CallTryRemoveListener error_ev; CallReject err] |}).
  { unfold run. rewrite normalizeEncoding_encodingOf. simpl bind.
    unfold eventsOf. generalize (map SData cs ++ SError err :: rest) at 1 3. intros evs.
    rewrite executor_readable, deliver_app.
    rewrite (deliver_data (VReadable evs) (encodingOf enc) cs [] bs);
      [|reflexivity|reflexivity|exact Hcs].
    change (deliver (VReadable evs) (encodingOf enc) (SError err :: rest) ?st)
      with (deliver (VReadable evs) (encodingOf enc) rest
              (emit (VReadable evs) (encodingOf enc) (SError err) st)).
    simpl emit. unfold errorListener. rewrite Herr.
    rewrite COMPLETED_first by reflexivity. rewrite Herr.
    rewrite deliver_detached by reflexivity. reflexivity. }
  split; [|exact Hrun].
  unfold readAll. rewrite Hrun. simpl. destruct err as [[] | | | |]; try reflexivity; discriminate.
Qed.

(** X29. An exception raised while appending goes through [COMPLETED]:
    when the byte-encoding step refuses a chunk, the promise is rejected
    with what it threw, whatever the stream emits afterwards. *)
Lemma readAll_chunk_refused (cs : list chunk) (c : chunk) (e : value)
    (rest : list (stream_event value)) (enc : option string) (bs : list byte) :
  chunksBytes (encodingOf enc) cs = Ok bs ->
  chunkBytes (encodingOf enc) c = Throw e ->
  truthy e = true ->
  readAll (VReadable (map SData cs ++ SData c :: rest)) enc = Ok (Rejected e).
Proof.
  intros Hcs Hc He. unfold readAll, run.
  rewrite normalizeEncoding_encodingOf. simpl bind.
  unfold eventsOf. generalize (map SData cs ++ SData c :: rest) at 1 3. intros evs.
  rewrite executor_readable, deliver_app.
  rewrite (deliver_data (VReadable evs) (encodingOf enc) cs [] bs);
    [|reflexivity|reflexivity|exact Hcs].
  change (deliver (VReadable evs) (encodingOf enc) (SData c :: rest) ?st)
    with (deliver (VReadable evs) (encodingOf enc) rest
            (emit (VReadable evs) (encodingOf enc) (SData c) st)).
  simpl emit. unfold dataListener. unfold chunkBytes in Hc.
  destruct (isEmptyChunk c); [discriminate|].
  destruct c as [b0|s0]; [discriminate|]. rewrite Hc.
  cbv beta iota delta [bind].
  rewrite COMPLETED_first by reflexivity. rewrite He.
  rewrite deliver_detached by reflexivity. simpl.
  destruct e as [[] | | | |]; try reflexivity; discriminate.
Qed.

(** An [error] event whose payload is falsy is ignored by the listener. *)
Lemma errorListener_falsy (stream : value) (err : value) (st : state) :
  truthy err = false -> errorListener stream err st = st.
Proof. intros H. unfold errorListener. now rewrite H. Qed.

(** [readAll] of no stream: fulfilled with that same nil value, no listener
    attached. *)
Lemma readAll_nil (stream : value) (enc : option string) :
  isNil stream = true ->
  readAll stream enc = Ok (Fulfilled stream) /\
  exists st, run stream enc = Ok st /\
    Forall (fun e => match e with CallOn _ | CallOnce _ => False | _ => True end) (trace st).
Proof.
  intros H. unfold readAll, run. rewrite normalizeEncoding_encodingOf. simpl bind.
  destruct stream as [[] | | | |]; try discriminate; simpl;
    (split; [reflexivity | eexists; split; [reflexivity | repeat constructor]]).
Qed.

End Aggregation.

(** ** The normalizer: objects, strings and the encoding *)

Section Branches.

Context {P : Platform}.

Lemma isEmpty_toLowerCase (s : string) : isEmpty (toLowerCase s) = isEmpty s.
Proof. now destruct s. Qed.

(** A request is blank exactly when trimming it leaves nothing. *)
Lemma encodingOf_explicit (enc : option string) :
  encodingOf enc =
  match enc with
  | None => None
  | Some e => if isEmpty (trim e) then None else Some (trim (toLowerCase e))
  end.
Proof.
  destruct enc as [e|]; [|reflexivity].
  unfold encodingOf. cbv zeta.
  now rewrite <- toLowerCase_trim, isEmpty_toLowerCase.
Qed.

(** C7, as the code has it.  A value that is not a buffer, not nil, not a
    function and not a readable stream is serialised with [JSON.stringify]
    when it is an object in lodash's sense, arrays included, and only a value
    that is no object (a string, a number, a boolean) goes through
    [toStringSafe]; the text is encoded with the normalised encoding. *)
Theorem asBuffer_object_or_string (val : value) (enc : option string) :
  isBuffer val = false -> isNil val = false ->
  isFunction val = false -> isReadable val = false ->
  asBuffer val enc NUndefined =
  if isObject val
  then settle (do j <- JSON_stringify val; newBuffer j (encodingOf enc))
  else settle (do s <- toStringSafe val ""; newBuffer s (encodingOf enc)).
Proof.
  intros Hb Hn Hf Hr. unfold asBuffer. rewrite asBufferInner_unfold. cbv zeta.
  change (greater (if isNaN NNull then NNum 0 else NNull) (maxDepthOf NUndefined))
    with false.
  rewrite Hb, Hn. simpl orb. cbv iota.
  destruct val; try discriminate; rewrite ?Hr; reflexivity.
Qed.

(** C8, as the code has it.  An absent or blank encoding becomes the
    default; any other is put in lower case and trimmed, and that name is
    what the byte-encoding step gets, unchecked, in the string branch and in
    the JSON branch alike. *)
Theorem asBuffer_encoding_lowered_and_trimmed (enc : option string) :
  let passed :=
    match enc with
    | None => None
    | Some e => if isEmpty (trim e) then None else Some (trim (toLowerCase e))
    end in
  ReadAll.normalizeEncoding enc = Ok passed /\
  (forall s : string,
      asBuffer (VString s) enc NUndefined =
      settle (do b <- Buffer_new s passed; Ok (VBuffer b))) /\
  (forall (h : hooks) (props : list (string * data)),
      asBuffer (VData (DObj h props)) enc NUndefined =
      settle (do j <- JSON_stringify (VData (DObj h props)); newBuffer j passed)).
Proof.
  cbv zeta. rewrite <- encodingOf_explicit. split; [|split].
  - apply normalizeEncoding_encodingOf.
  - intros s. unfold asBuffer. now rewrite asBufferInner_unfold.
  - intros h props. unfold asBuffer. now rewrite asBufferInner_unfold.
Qed.

(** A readable stream is handed to [readAll] without the encoding. *)
Lemma asBuffer_stream (evs : list (stream_event value)) (enc : option string) :
  asBuffer (VReadable evs) enc NUndefined =
  match ReadAll.readAll (VReadable evs) None with
  | Ok p => p
  | Throw e => Rejected e
  end.
Proof. unfold asBuffer. now rewrite asBufferInner_unfold. Qed.

(** ** [toStringSafe] *)

(** C9, at an object whose [toString] throws: the [try] block catches the
    exception, and the concatenation after it, which is outside the [try],
    calls [toString] again. *)
Theorem toStringSafe_throws (msg : string) (props : list (string * data)) :
  toStringSafe
    (VData (DObj {| h_toString := Raises msg; h_valueOf := ReturnsSelf;
                    h_toJSON := Missing |} props)) "" =
  Throw (VError "Error" msg).
Proof. reflexivity. Qed.

(** An object without [toString] and [valueOf] whose serialisation fails:
    the concatenation has nothing to call and throws a [TypeError]. *)
Lemma toStringSafe_throws_after_JSON (msg : string) (props : list (string * data)) :
  toStringSafe
    (VData (DObj {| h_toString := Missing; h_valueOf := Missing;
                    h_toJSON := Raises msg |} props)) "" =
  Throw cannotConvert.
Proof. reflexivity. Qed.

(** An object without [toString] whose [toJSON] gives [undefined]: the
    result is [undefined], not a string. *)
Lemma toStringSafe_undefined (props : list (string * data)) :
  toStringSafe
    (VData (DObj {| h_toString := Missing; h_valueOf := ReturnsSelf;
                    h_toJSON := ReturnsUndefined |} props)) "" =
  Ok None.
Proof. reflexivity. Qed.

(** Where it does hold: strings, nil, errors, the other primitives, buffers,
    functions and streams. *)
Lemma toStringSafe_returns_string (val : value) (defaultVal : string) :
  isObject val = false \/ isBuffer val = true \/ isFunction val = true \/
  isReadable val = true \/ instanceofError val = true ->
  exists s, toStringSafe val defaultVal = Ok (Some s).
Proof.
  intros H. destruct val as [[] | | | |]; simpl in H;
    try (eexists; reflexivity);
    destruct H as [H|[H|[H|[H|H]]]]; discriminate.
Qed.

End Branches.

(** ** The process runner *)

Section Runner.

Import ExecFile.

Context {P : Platform}.

Variable ChildProcess_execFile : launch -> gmap string value -> behaviour.

(** C6, at absent arguments: [asArray(undefined, false)] is [[undefined]],
    and so the command is launched with one argument, the empty string;
    likewise for [null]. *)
Theorem execFile_nil_args (command : string) (opts : option loc)
    (h : gmap loc (gmap string value)) :
  option_map (fun l => args (fst l))
    (launched (execFile ChildProcess_execFile (VString command) VUndefined opts h)) =
    Some [Some ""] /\
  option_map (fun l => args (fst l))
    (launched (execFile ChildProcess_execFile (VString command) VNull opts h)) =
    Some [Some ""].
Proof. split; destruct opts; reflexivity. Qed.

Lemma asArray_keep (items : list data) :
  asArray (VData (DArr items)) (VData (DBool false)) = map VData items.
Proof.
  unfold asArray. simpl. induction (map VData items) as [|v l IH]; simpl; congruence.
Qed.

Lemma mapM_length {A B : Type} (f : A -> res B) (l : list A) (r : list B) :
  mapM f l = Ok r -> length r = length l.
Proof.
  revert r. induction l as [|a l IH]; intros r H; simpl in H.
  - injection H as H. now subst r.
  - destruct (f a) as [b|]; simpl in H; [|discriminate].
    destruct (mapM f l) as [bs|]; simpl in H; [|discriminate].
    injection H as H. subst r. simpl. now rewrite (IH bs).
Qed.

(** X30. The part of C6 that holds: the command and the elements of an
    array of arguments are coerced one by one, none is dropped and the order
    is kept. *)
Lemma execFile_array_args (command : value) (items : list data) (opts : option loc)
    (h : gmap loc (gmap string value)) (c : option string) (coerced : list (option string)) :
  toStringSafe command "" = Ok c ->
  mapM (fun a => toStringSafe a "") (map VData items) = Ok coerced ->
  exists l o,
    launched (execFile ChildProcess_execFile command (VData (DArr items)) opts h) = Some (l, o) /\
    file l = c /\ args l = coerced /\ length (args l) = length items.
Proof.
  intros Hc Ha. unfold execFile. rewrite Hc, asArray_keep. simpl bind. rewrite Ha. simpl.
  destruct opts as [l|]; simpl; do 2 eexists;
    (split; [reflexivity | repeat split; simpl;
      rewrite (mapM_length _ _ _ Ha); apply length_map]).
Qed.


(** Whatever the call does, it changes no property other than [env] of the
    caller's object and no other object the caller has. *)
Lemma execFile_frame (command args : value) (l : loc)
    (h : gmap loc (gmap string value)) :
  let after := heap (execFile ChildProcess_execFile command args (Some l) h) in
  (forall k : string, k <> "env" ->
     property (objectAt after l) k = property (objectAt h l) k) /\
  (forall l' : loc, l' <> l -> after !! l' = h !! l').
Proof.
  unfold execFile.
  destruct (do command0 <- toStringSafe command "";
            do args0 <- mapM (fun a => toStringSafe a "")
                          (asArray args (VData (DBool false)));
            Ok (command0, args0)) as [[c a]|e]; simpl; [|split; reflexivity].
  destruct (isNil (property (objectAt h l) "env")); simpl; [|split; reflexivity].
  split.
  - intros k Hk. unfold objectAt at 1. rewrite lookup_insert_eq.
    unfold property. now rewrite lookup_insert_ne.
  - intros l' Hl'. now rewrite lookup_insert_ne.
Qed.

(** Without an options object a fresh one is made; nothing of the caller's
    is touched. *)
Lemma execFile_no_options (command args : value) (h : gmap loc (gmap string value))
    (l' : loc) :
  is_Some (h !! l') ->
  heap (execFile ChildProcess_execFile command args None h) !! l' = h !! l'.
Proof.
  intros Hl'. unfold execFile.
  destruct (do command0 <- toStringSafe command "";
            do args0 <- mapM (fun a => toStringSafe a "")
                          (asArray args (VData (DBool false)));
            Ok (command0, args0)) as [[c a]|e]; simpl; [|reflexivity].
  assert (Hne : fresh (dom h) <> l').
  { intros <-. apply elem_of_dom in Hl'. exact (is_fresh (dom h) Hl'). }
  destruct (isNil _); simpl; rewrite ?lookup_insert_ne by exact Hne; reflexivity.
Qed.

End Runner.

(** ** On the sample platform *)

Lemma utf8_cons (c : ascii) (s : string) :
  utf8 (String c s) = utf8 (String c "") ++ utf8 s.
Proof. simpl. destruct (code c <? 128)%nat; reflexivity. Qed.

Lemma utf8Decode_one (c : ascii) (t : list byte) :
  utf8Decode (utf8 (String c "") ++ t) = String c (utf8Decode t).
Proof. destruct c as [[] [] [] [] [] [] [] []]; reflexivity. Qed.

(** Decoding undoes encoding, for UTF-8. *)
Lemma utf8Decode_utf8 (s : string) : utf8Decode (utf8 s) = s.
Proof.
  induction s as [|c s IH]; [reflexivity|].
  now rewrite utf8_cons, utf8Decode_one, IH.
Qed.

(** C2 at chains of length 2, 3, 63 and 64. *)
Lemma asBuffer_chain_depth_witness :
  asBuffer (P := nodeText) (chain 2 (utf8 "a")) None (NNum 2) = Fulfilled (VBuffer (utf8 "a")) /\
  asBuffer (P := nodeText) (chain 3 (utf8 "a")) None (NNum 2) =
    Rejected (VError "Error" "Maximum depth of 2 reached!") /\
  asBuffer (P := nodeText) (chain 63 (utf8 "a")) None NUndefined = Fulfilled (VBuffer (utf8 "a")) /\
  asBuffer (P := nodeText) (chain 64 (utf8 "a")) None NUndefined =
    Rejected (VError "Error" "Maximum depth of 63 reached!").
Proof.
  split; [|split; [|split]].
  - apply (asBuffer_chain_depth (P := nodeText) (chain 2 (utf8 "a")) None (NNum 2) 2 (utf8 "a")).
    repeat econstructor.
  - apply (asBuffer_chain_depth (P := nodeText) (chain 3 (utf8 "a")) None (NNum 2) 3 (utf8 "a")).
    repeat econstructor.
  - apply (asBuffer_chain_depth (P := nodeText) (chain 63 (utf8 "a")) None NUndefined 63 (utf8 "a")).
    repeat econstructor.
  - apply (asBuffer_chain_depth (P := nodeText) (chain 64 (utf8 "a")) None NUndefined 64 (utf8 "a")).
    repeat econstructor.
Defined.

(** C4 at the chunks ab, cd, ef. *)
Lemma readAll_chunks_then_end_witness :
  ReadAll.readAll (P := nodeText)
    (VReadable [SData (CString "ab"); SData (CString "cd"); SData (CString "ef"); SEnd])
    None =
  Ok (Fulfilled (VBuffer (utf8 "abcdef"))).
Proof.
  apply (readAll_chunks_then_end (P := nodeText)
           [CString "ab"; CString "cd"; CString "ef"] [] None (utf8 "abcdef")).
  reflexivity.
Defined.

(** C5 at a stream that fails after its first chunk. *)
Lemma readAll_error_before_end_witness :
  ReadAll.readAll (P := nodeText)
    (VReadable [SData (CString "ab"); SError (VError "Error" "broken pipe"); SEnd])
    None =
  Ok (Rejected (VError "Error" "broken pipe")).
Proof.
  apply (readAll_error_before_end (P := nodeText)
           [CString "ab"] (VError "Error" "broken pipe") [SEnd] None (utf8 "ab")).
  - reflexivity.
  - reflexivity.
Defined.

(** C7 at the array [[1, 2]]: it is serialised, and the bytes decode to the
    JSON text. *)
Lemma asBuffer_object_or_string_witness :
  asBuffer (P := nodeText) (VData (DArr [DNum 1; DNum 2])) (Some "UTF8") NUndefined =
  Fulfilled (VBuffer (utf8 "[1,2]")).
Proof.
  apply (asBuffer_object_or_string (P := nodeText)
           (VData (DArr [DNum 1; DNum 2])) (Some "UTF8")); reflexivity.
Defined.

(** C7 as stated fails: an array is an object for [_.isObject], so it is
    serialised ([[1,2]]) and not string-coerced ([1,2]). *)
Lemma asBuffer_array_not_string_coerced :
  ~ (forall (P : Platform) (val : value) (enc : option string),
        isArray val = true ->
        asBuffer val enc NUndefined =
        settle (do s <- toStringSafe val ""; newBuffer s (encodingOf enc))).
Proof.
  intros H.
  specialize (H nodeText (VData (DArr [DNum 1; DNum 2])) None eq_refl).
  vm_compute in H. discriminate H.
Qed.

(** C8 as stated fails: the name [ utf8], with a leading blank, is not one
    the byte-encoding step knows, yet no error surfaces, because the step is
    given [utf8]. *)
Lemma asBuffer_encoding_not_verbatim :
  ~ (forall (P : Platform) (s e : string),
        isEmpty (trim e) = false ->
        asBuffer (VString s) (Some e) NUndefined =
        settle (do b <- Buffer_new s (Some e); Ok (VBuffer b))).
Proof.
  intros H.
  specialize (H nodeText "a" " utf8" eq_refl).
  vm_compute in H. discriminate H.
Qed.


(** C6 and C9 on concrete calls. *)
Example execFile_without_args :
  option_map (fun l => ExecFile.args (fst l))
    (ExecFile.launched
       (ExecFile.execFile (P := nodeText) (fun _ _ => ExecFile.Silent 7)
          (VString "ls") VUndefined None ∅)) =
  Some [Some ""].
Proof. reflexivity. Qed.

Example toStringSafe_of_throwing_toString :
  toStringSafe (P := nodeText)
    (VData (DObj {| h_toString := Raises "boom"; h_valueOf := ReturnsSelf;
                    h_toJSON := Missing |} [])) "" =
  Throw (VError "Error" "boom").
Proof. reflexivity. Qed.

(** On the sample platform, with the default encoding, the bytes of a
    serialised object decode to its JSON text. *)
Lemma asBuffer_object_decodes (h : hooks) (props : list (string * data)) (j : string) :
  JSON_stringify (P := nodeText) (VData (DObj h props)) = Ok (Some j) ->
  exists b, asBuffer (P := nodeText) (VData (DObj h props)) None NUndefined =
            Fulfilled (VBuffer b) /\
            utf8Decode b = j.
Proof.
  intros Hj. exists (utf8 j). split; [|apply utf8Decode_utf8].
  unfold asBuffer. rewrite asBufferInner_unfold. cbv zeta.
  change (isObject (VData (DObj h props))) with true.
  change (greater (if isNaN NNull then NNum 0 else NNull) (maxDepthOf NUndefined))
    with false.
  cbv iota. simpl orb. cbv iota. simpl isReadable. cbv iota.
  rewrite Hj. reflexivity.
Qed.

(** * Further properties *)

(** ** [normalizeString], [isEmptyString], [asArray] *)

Lemma isEmpty_trimStart (s : string) : isEmpty (trimStart s) = allWhite s.
Proof.
  unfold allWhite. induction s as [|c s IH]; simpl; [reflexivity|].
  destruct (isWhiteSpace c); simpl; [exact IH | reflexivity].
Qed.

Lemma isEmpty_trimEnd (s : string) : startsClean s -> isEmpty (trimEnd s) = isEmpty s.
Proof.
  destruct s as [|c s]; simpl; [reflexivity|].
  intros ->. now destruct (trimEnd s).
Qed.

Lemma isEmpty_trim (s : string) : isEmpty (trim s) = allWhite s.
Proof.
  unfold trim. rewrite isEmpty_trimEnd by apply trimStart_startsClean.
  apply isEmpty_trimStart.
Qed.

Section SmallHelpers.

Context {P : Platform}.

(** X1. Normalising twice is normalising once: what [normalizeString]
    returns is its own normal form. *)
Theorem normalizeString_idempotent (val : value) (s : string) :
  normalizeString val None = Ok s ->
  normalizeString (VString s) None = Ok s.
Proof.
  unfold normalizeString. intros H.
  destruct (toStringSafe val "") as [[t|]|e]; simpl in H; try discriminate.
  injection H as H. subst s. simpl.
  now rewrite toLowerCase_trim, toLowerCase_idempotent, trim_idempotent.
Qed.

(** X2. [isEmptyString] of a string says whether it consists of white space
    only (the empty string included), and [null] and [undefined] count as
    empty. *)
Theorem isEmptyString_white_space :
  (forall s : string, isEmptyString (VString s) = Ok (allWhite s)) /\
  isEmptyString VNull = Ok true /\
  isEmptyString VUndefined = Ok true.
Proof.
  repeat split. intros s. unfold isEmptyString. simpl. now rewrite isEmpty_trim.
Qed.

(** X3. With [removeEmpty] left out, [asArray] never gives a [null] or an
    [undefined] item, and of [null] or [undefined] it gives the empty
    array. *)
Theorem asArray_default_no_nil (val : value) :
  Forall (fun i => isNil i = false) (asArray val VUndefined) /\
  asArray VNull VUndefined = [] /\
  asArray VUndefined VUndefined = [].
Proof.
  split; [|split; reflexivity].
  unfold asArray. simpl.
  apply List.Forall_forall. intros i Hi. apply filter_In in Hi.
  destruct Hi as [_ Hi]. now destruct (isNil i).
Qed.

End SmallHelpers.

(** ** [readAll] on every stream *)

Section AggregatorInvariant.

Import ReadAll.

Context {P : Platform}.

Variable stream : value.
Variable enc : option string.

Lemma settles_app (t u : list effect) : settles (t ++ u) = (settles t + settles u)%nat.
Proof.
  induction t as [|e t IH]; simpl; [reflexivity|].
  destruct e; simpl; rewrite IH; reflexivity.
Qed.

Lemma COMPLETED_sound (err : value) (st : state) : sound stream st -> sound stream (COMPLETED stream err st).
Proof.
  intros [(Hc & Hs & Ha)|H]; [|unfold COMPLETED; destruct H as (Hc & H); rewrite Hc;
                                right; split; assumption].
  right. unfold COMPLETED. rewrite Hc.
  unfold tryRemoveListener.
  destruct (isReadable stream) eqn:Er.
  - destruct (truthy err); simpl; rewrite !settles_app, Hs; simpl; repeat split; reflexivity.
  - assert (Hd : dataAttached st = false /\ endAttached st = false /\ errorAttached st = false).
    { destruct (dataAttached st) eqn:E1; [discriminate Ha; now left|].
      destruct (endAttached st) eqn:E2; [discriminate Ha; now (right; left)|].
      destruct (errorAttached st) eqn:E3; [discriminate Ha; now (right; right)|].
      repeat split. }
    destruct Hd as (H1 & H2 & H3).
    destruct (truthy err); simpl; rewrite !settles_app, Hs; simpl; repeat split; assumption.
Qed.

Lemma setBuff_sound (b : value) (st : state) : sound stream st -> sound stream (setBuff b st).
Proof. intros H. exact H. Qed.

Lemma emit_sound (ev : stream_event value) (st : state) : sound stream st -> sound stream (emit stream enc ev st).
Proof.
  intros H. destruct ev as [c| |err]; simpl.
  - destruct (dataAttached st); [|exact H].
    unfold dataListener. destruct (isEmptyChunk c); [exact H|].
    destruct (do bytes <- match c with
                          | CBuffer b => Ok b
                          | CString s => Buffer_new s enc
                          end; Buffer_concat (buff st) bytes) as [b|e].
    + exact H.
    + now apply COMPLETED_sound.
  - destruct (endAttached st) eqn:E; [|exact H].
    unfold endListener. apply COMPLETED_sound.
    destruct H as [(Hc & Hs & Ha)|(Hc & Hs & Hd & He & Hr)]; [|congruence].
    left. repeat split; try assumption.
    intros _. apply Ha. now (right; left).
  - destruct (errorAttached st); [|exact H].
    unfold errorListener. destruct (truthy err); [|exact H].
    now apply COMPLETED_sound.
Qed.

Lemma deliver_sound (evs : list (stream_event value)) (st : state) :
  sound stream st -> sound stream (deliver stream enc evs st).
Proof.
  revert st. induction evs as [|ev evs IH]; intros st H; simpl; [exact H|].
  apply IH, emit_sound, H.
Qed.

Lemma executor_sound : sound stream (executor stream).
Proof.
  unfold executor.
  destruct (isNil stream) eqn:En.
  - apply COMPLETED_sound. left. repeat split. simpl.
    intros [H|[H|H]]; discriminate.
  - destruct (isReadable stream) eqn:Er.
    + left. repeat split. intros _. exact Er.
    + apply COMPLETED_sound. left. repeat split. simpl.
      intros [H|[H|H]]; discriminate.
Qed.

End AggregatorInvariant.

Section AggregatorFacts.

Import ReadAll.

Context {P : Platform}.

(** X4. Whatever the stream is and whatever it emits, in whatever order:
    [readAll] returns a promise, [resolve] and [reject] together are called
    at most once, they have been called exactly when [completedInvoked] is
    set, and from then on none of the three listeners is attached. *)
Theorem readAll_settles_at_most_once (stream : value) (enc : option string) :
  let st := deliver stream (encodingOf enc) (eventsOf stream) (executor stream) in
  run stream enc = Ok st /\
  (settles (trace st) <= 1)%nat /\
  (settles (trace st) = 1%nat <-> completedInvoked st = true) /\
  (completedInvoked st = true ->
   dataAttached st = false /\ endAttached st = false /\ errorAttached st = false).
Proof.
  cbv zeta. split.
  - unfold run. now rewrite normalizeEncoding_encodingOf.
  - pose proof (deliver_sound stream (encodingOf enc) (eventsOf stream) _
                  (executor_sound stream)) as H.
    destruct H as [(Hc & Hs & _)|(Hc & Hs & Hd)].
    + rewrite Hc, Hs. repeat split; try lia; discriminate.
    + rewrite Hc, Hs. repeat split; try lia; apply Hd.
Qed.

(** X5. Of no stream, [readAll] makes that same nil value: the promise is
    fulfilled with [null] for [null] and with [undefined] for [undefined],
    and no listener is ever attached ([on] and [once] are not called). *)
Theorem readAll_of_no_stream (enc : option string) :
  run VNull enc =
    Ok {| buff := VNull; completedInvoked := true;
          dataAttached := false; endAttached := false; errorAttached := false;
          trace := [CallTryRemoveListener data_ev; CallTryRemoveListener end_ev;
                    CallTryRemoveListener error_ev; CallResolve VNull] |} /\
  run VUndefined enc =
    Ok {| buff := VUndefined; completedInvoked := true;
          dataAttached := false; endAttached := false; errorAttached := false;
          trace := [CallTryRemoveListener data_ev; CallTryRemoveListener end_ev;
                    CallTryRemoveListener error_ev; CallResolve VUndefined] |} /\
  readAll VNull enc = Ok (Fulfilled VNull) /\
  readAll VUndefined enc = Ok (Fulfilled VUndefined).
Proof.
  unfold readAll, run. rewrite normalizeEncoding_encodingOf.
  repeat split.
Qed.

(** X6. A stream that emits chunks and neither [end] nor [error]: the
    promise stays pending, the three listeners stay attached, and [buff]
    holds the bytes received so far, in order. *)
Theorem readAll_without_end (cs : list chunk) (enc : option string) (bs : list byte) :
  chunksBytes (encodingOf enc) cs = Ok bs ->
  readAll (VReadable (map SData cs)) enc = Ok Pending /\
  run (VReadable (map SData cs)) enc =
    Ok {| buff := VBuffer bs; completedInvoked := false;
          dataAttached := true; endAttached := true; errorAttached := true;
          trace := [CallOn error_ev; CallOnce end_ev; CallOn data_ev] |}.
Proof.
  intros Hcs.
  assert (Hrun : run (VReadable (map SData cs)) enc =
    Ok {| buff := VBuffer bs; completedInvoked := false;
          dataAttached := true; endAttached := true; errorAttached := true;
          trace := [CallOn error_ev; CallOnce end_ev; CallOn data_ev] |}).
  { unfold run. rewrite normalizeEncoding_encodingOf. simpl bind.
    unfold eventsOf. generalize (map (@SData value) cs) at 1 3. intros evs.
    rewrite executor_readable.
    rewrite (deliver_data (VReadable evs) (encodingOf enc) cs [] bs);
      [reflexivity|reflexivity|reflexivity|exact Hcs]. }
  split; [|exact Hrun].
  unfold readAll. now rewrite Hrun.
Qed.

End AggregatorFacts.

(** ** [asBuffer] on every value *)

Section NormalizerFacts.

Context {P : Platform}.

Lemma COMPLETED_buffersOnly (stream err : value) (st : ReadAll.state) :
  buffersOnly st -> buffersOnly (ReadAll.COMPLETED stream err st).
Proof.
  intros [Hb Ht]. unfold ReadAll.COMPLETED.
  destruct (ReadAll.completedInvoked st); [now split|].
  unfold ReadAll.tryRemoveListener.
  destruct (isReadable stream), (truthy err); simpl; (split; [exact Hb|]);
    intros v Hv; repeat (apply in_app_or in Hv; destruct Hv as [Hv|Hv]);
    try (now apply Ht);
    simpl in Hv; destruct Hv as [Hv|[]]; try discriminate;
    injection Hv as Hv; now subst v.
Qed.

Lemma emit_buffersOnly (stream : value) (enc : option string)
    (ev : stream_event value) (st : ReadAll.state) :
  buffersOnly st -> buffersOnly (ReadAll.emit stream enc ev st).
Proof.
  intros H. destruct ev as [c| |err]; simpl.
  - destruct (ReadAll.dataAttached st); [|exact H].
    unfold ReadAll.dataListener. destruct (ReadAll.isEmptyChunk c); [exact H|].
    destruct (do bytes <- match c with
                          | CBuffer b => Ok b
                          | CString s => Buffer_new s enc
                          end; ReadAll.Buffer_concat (ReadAll.buff st) bytes) as [b|e].
    + destruct H as [_ Ht]. split; [reflexivity | exact Ht].
    + now apply COMPLETED_buffersOnly.
  - destruct (ReadAll.endAttached st); [|exact H].
    unfold ReadAll.endListener. apply COMPLETED_buffersOnly. exact H.
  - destruct (ReadAll.errorAttached st); [|exact H].
    unfold ReadAll.errorListener. destruct (truthy err); [|exact H].
    now apply COMPLETED_buffersOnly.
Qed.

Lemma deliver_buffersOnly (stream : value) (enc : option string)
    (evs : list (stream_event value)) (st : ReadAll.state) :
  buffersOnly st -> buffersOnly (ReadAll.deliver stream enc evs st).
Proof.
  revert st. induction evs as [|ev evs IH]; intros st H; simpl; [exact H|].
  apply IH, emit_buffersOnly, H.
Qed.

Lemma settled_resolved (t : list ReadAll.effect) (v : value) :
  ReadAll.settled t = Fulfilled v -> In (ReadAll.CallResolve v) t.
Proof.
  induction t as [|e t IH]; simpl; [discriminate|].
  destruct e; intros H; try (right; now apply IH); try discriminate.
  injection H as H. subst. now left.
Qed.

(** What [readAll] makes of a readable stream is a buffer. *)
Lemma readAll_readable_buffer (evs : list (stream_event value)) (enc : option string)
    (v : value) :
  ReadAll.readAll (VReadable evs) enc = Ok (Fulfilled v) -> isBuffer v = true.
Proof.
  unfold ReadAll.readAll, ReadAll.run. rewrite normalizeEncoding_encodingOf. simpl bind.
  intros H. injection H as H. apply settled_resolved in H.
  revert H. apply deliver_buffersOnly.
  rewrite executor_readable. split; [reflexivity|].
  intros w [Hw|[Hw|[Hw|[]]]]; discriminate.
Qed.

Lemma toNumber_depthIn (d : jsnum) : toNumber (depthIn d) = Some (depthOf d).
Proof. destruct d; reflexivity. Qed.

Lemma depthOf_plusOne (d : jsnum) : depthOf (plusOne (depthIn d)) = (depthOf d + 1)%Z.
Proof. destruct d; reflexivity. Qed.

Lemma depthIn_plusOne (d : jsnum) : depthIn (plusOne (depthIn d)) = plusOne (depthIn d).
Proof. destruct d; reflexivity. Qed.

Lemma depthIn_idempotent (d : jsnum) : depthIn (depthIn d) = depthIn d.
Proof. destruct d; reflexivity. Qed.

Lemma greater_depth (d maxDepth : jsnum) :
  greater (depthIn d) (maxDepthOf maxDepth) = (limit maxDepth <? depthOf d)%Z.
Proof. unfold greater. now rewrite toNumber_depthIn, toNumber_maxDepthOf. Qed.

Lemma newBuffer_buffer (x enc : option string) (v : value) :
  newBuffer x enc = Ok v -> isBuffer v = true.
Proof.
  destruct x as [s|]; simpl; [|discriminate].
  destruct (Buffer_new s enc); simpl; [|discriminate].
  intros H. injection H as H. now subst v.
Qed.

Lemma asBufferInner_result (k : nat) :
  forall (val : value) (enc : option string) (d maxDepth : jsnum) (v : value),
    (limit maxDepth - depthOf d < Z.of_nat k)%Z ->
    asBufferInner val enc d maxDepth = Fulfilled v ->
    isBuffer v || isNil v = true.
Proof.
  induction k as [|k IH]; intros val enc d maxDepth v Hk;
    rewrite asBufferInner_unfold; cbv zeta;
    change (if isNaN d then NNum 0 else d) with (depthIn d);
    rewrite greater_depth;
    destruct (Z.ltb_spec (limit maxDepth) (depthOf d)) as [Hlt|Hge];
    try discriminate; try lia.
  destruct (isBuffer val || isNil val) eqn:Hv.
  { intros H. injection H as H. now subst v. }
  destruct val as [dat|b|src call|evs|name msg]; simpl isReadable; cbv iota.
  - (* data *)
    destruct (isObject (VData dat)).
    + destruct (JSON_stringify (VData dat)) as [j|e]; simpl; [|discriminate].
      destruct (newBuffer j (encodingOf enc)) as [w|e] eqn:E; simpl; [|discriminate].
      intros H. injection H as H. subst w. now rewrite (newBuffer_buffer _ _ _ E).
    + destruct (toStringSafe (VData dat) "") as [j|e]; simpl; [|discriminate].
      destruct (newBuffer j (encodingOf enc)) as [w|e] eqn:E; simpl; [|discriminate].
      intros H. injection H as H. subst w. now rewrite (newBuffer_buffer _ _ _ E).
  - discriminate Hv.
  - destruct (call (encodingOf enc) (depthIn d) (maxDepthOf maxDepth)) as [v0| |];
      try discriminate.
    apply IH. rewrite limit_maxDepthOf, depthOf_plusOne. lia.
  - destruct (ReadAll.readAll (VReadable evs) None) as [p|e] eqn:E; [|discriminate].
    intros H. subst p. now rewrite (readAll_readable_buffer _ _ _ E).
  - simpl. destruct (Buffer_new "{}" (encodingOf enc)); simpl; [|discriminate].
    intros H. injection H as H. now subst v.
Qed.

(** X7. When the promise of [asBuffer] is fulfilled, it is fulfilled with a
    buffer, or with [null] or [undefined]: whatever the value, the encoding
    and the depth limit, nothing else comes out. *)
Theorem asBuffer_gives_buffer_or_nil (val : value) (enc : option string)
    (maxDepth : jsnum) (v : value) :
  asBuffer val enc maxDepth = Fulfilled v ->
  isBuffer v || isNil v = true.
Proof.
  unfold asBuffer.
  apply (asBufferInner_result (Z.to_nat (limit maxDepth + 1))).
  change (depthOf NNull) with 0%Z.
  destruct (Z.leb_spec 0 (limit maxDepth + 1)); lia.
Qed.

(** X8. For a readable stream the encoding given to [asBuffer] plays no
    part: [readAll] is called without it, so textual chunks are encoded with
    the default encoding whatever was asked for. *)
Theorem asBuffer_stream_ignores_encoding (evs : list (stream_event value))
    (enc : option string) (maxDepth : jsnum) :
  asBuffer (VReadable evs) enc maxDepth = asBuffer (VReadable evs) None maxDepth.
Proof. unfold asBuffer. now rewrite !asBufferInner_unfold. Qed.

Lemma asBufferInner_normal (val : value) (enc : option string) (d maxDepth : jsnum) :
  asBufferInner val enc d maxDepth =
  asBufferInner val (encodingOf enc) (depthIn d) (maxDepthOf maxDepth).
Proof.
  rewrite !asBufferInner_unfold. cbv zeta.
  change (if isNaN d then NNum 0 else d) with (depthIn d).
  change (if isNaN (depthIn d) then NNum 0 else depthIn d) with (depthIn (depthIn d)).
  now rewrite encodingOf_idempotent, maxDepthOf_idempotent, depthIn_idempotent.
Qed.

Lemma depthOf_depthIn (d : jsnum) : depthOf (depthIn d) = depthOf d.
Proof. destruct d; reflexivity. Qed.

Lemma asBufferInner_unwraps (n : nat) :
  forall (enc : option string) (maxDepth d : jsnum) (v v' : value),
    defersTo (encodingOf enc) (maxDepthOf maxDepth) (depthIn d) n v v' ->
    (depthOf d + Z.of_nat n <= limit maxDepth + 1)%Z \/ n = 0%nat ->
    asBufferInner v enc d maxDepth =
    asBufferInner v' (encodingOf enc) (Nat.iter n plusOne (depthIn d)) (maxDepthOf maxDepth).
Proof.
  induction n as [|n IH]; intros enc maxDepth d v v' H Hn; inversion H; subst.
  - simpl. apply asBufferInner_normal.
  - destruct Hn as [Hn|Hn]; [|discriminate].
    rewrite asBufferInner_unfold. cbv zeta.
    change (if isNaN d then NNum 0 else d) with (depthIn d).
    rewrite greater_depth.
    destruct (Z.ltb_spec (limit maxDepth) (depthOf d)) as [Hlt|Hge]; [lia|].
    simpl orb. cbv iota. rewrite H1.
    rewrite (IH (encodingOf enc) (maxDepthOf maxDepth) (plusOne (depthIn d)) v0 v').
    + rewrite encodingOf_idempotent, maxDepthOf_idempotent, depthIn_plusOne.
      now rewrite Nat.iter_succ_r.
    + now rewrite encodingOf_idempotent, maxDepthOf_idempotent, depthIn_plusOne.
    + left. rewrite limit_maxDepthOf.
      replace (depthOf (plusOne (depthIn d))) with (depthOf d + 1)%Z
        by (symmetry; apply depthOf_plusOne).
      lia.
Qed.

(** X9. Unwrapping composes: when [val] is [n] deferred-value functions
    around [v'] and [n] is within the depth limit, [asBuffer(val)] is what
    [asBufferInner] makes of [v'] at depth [n], with the encoding normalised
    and the limit in force, whatever [v'] is. *)
Theorem asBuffer_unwraps (val v' : value) (enc : option string) (maxDepth : jsnum)
    (n : nat) :
  defersTo (encodingOf enc) (maxDepthOf maxDepth) NNull n val v' ->
  (Z.of_nat n <= limit maxDepth)%Z ->
  asBuffer val enc maxDepth =
  asBufferInner v' (encodingOf enc) (Nat.iter n plusOne NNull) (maxDepthOf maxDepth).
Proof.
  intros H Hn. unfold asBuffer.
  apply (asBufferInner_unwraps n enc maxDepth NNull val v' H).
  left. change (depthOf NNull) with 0%Z. lia.
Qed.

Lemma asBufferInner_too_deep (n : nat) :
  forall (enc : option string) (maxDepth d : jsnum) (v v' : value),
    defersTo (encodingOf enc) (maxDepthOf maxDepth) (depthIn d) n v v' ->
    (limit maxDepth < depthOf d + Z.of_nat n)%Z ->
    asBufferInner v enc d maxDepth = Rejected (maximumDepthReached (maxDepthOf maxDepth)).
Proof.
  induction n as [|n IH]; intros enc maxDepth d v v' H Hn; inversion H; subst;
    rewrite asBufferInner_unfold; cbv zeta;
    change (if isNaN d then NNum 0 else d) with (depthIn d);
    rewrite greater_depth;
    destruct (Z.ltb_spec (limit maxDepth) (depthOf d)) as [Hlt|Hge];
    try reflexivity; try lia.
  simpl orb. cbv iota. rewrite H1.
  rewrite (IH (encodingOf enc) (maxDepthOf maxDepth) (plusOne (depthIn d)) v0 v').
  - now rewrite maxDepthOf_idempotent.
  - now rewrite encodingOf_idempotent, maxDepthOf_idempotent, depthIn_plusOne.
  - rewrite limit_maxDepthOf, depthOf_plusOne. lia.
Qed.

(** X10. A value that is more deferred-value functions deep than the limit
    allows is rejected with the maximum-depth error, whatever lies beneath
    the functions: the functions past the limit are not called. *)
Theorem asBuffer_too_deep (val v' : value) (enc : option string) (maxDepth : jsnum)
    (n : nat) :
  defersTo (encodingOf enc) (maxDepthOf maxDepth) NNull n val v' ->
  (limit maxDepth < Z.of_nat n)%Z ->
  asBuffer val enc maxDepth = Rejected (maximumDepthReached (maxDepthOf maxDepth)).
Proof.
  intros H Hn. unfold asBuffer.
  now apply (asBufferInner_too_deep n enc maxDepth NNull val v' H).
Qed.

Lemma iter_plusOne_depth (n : nat) (d : jsnum) :
  depthIn (Nat.iter n plusOne (depthIn d)) = Nat.iter n plusOne (depthIn d) /\
  depthOf (Nat.iter n plusOne (depthIn d)) = (depthOf d + Z.of_nat n)%Z.
Proof.
  induction n as [|n [IH1 IH2]].
  - simpl. rewrite depthIn_idempotent, depthOf_depthIn. split; [reflexivity | lia].
  - change (Nat.iter (S n) plusOne (depthIn d))
      with (plusOne (Nat.iter n plusOne (depthIn d))).
    rewrite <- IH1. rewrite depthIn_plusOne, depthOf_plusOne, IH2.
    split; [reflexivity | lia].
Qed.

(** X11. When a deferred-value function within the depth limit rejects (or
    throws), [asBuffer] is rejected with that same reason. *)
Theorem asBuffer_rejection_passes (val : value) (source : string)
    (call : option string -> jsnum -> jsnum -> promise value value)
    (enc : option string) (maxDepth : jsnum) (n : nat) (e : value) :
  defersTo (encodingOf enc) (maxDepthOf maxDepth) NNull n val (VFunction source call) ->
  (Z.of_nat n <= limit maxDepth)%Z ->
  call (encodingOf enc) (Nat.iter n plusOne NNull) (maxDepthOf maxDepth) = Rejected e ->
  asBuffer val enc maxDepth = Rejected e.
Proof.
  intros H Hn He. unfold asBuffer.
  rewrite (asBufferInner_unwraps n enc maxDepth NNull val _ H)
    by (left; change (depthOf NNull) with 0%Z; lia).
  rewrite asBufferInner_unfold. cbv zeta.
  set (d := Nat.iter n plusOne (depthIn NNull)).
  change (if isNaN d then NNum 0 else d) with (depthIn d).
  destruct (iter_plusOne_depth n NNull) as [Hd1 Hd2].
  fold d in Hd1, Hd2. change (depthOf NNull) with 0%Z in Hd2.
  replace (0 + Z.of_nat n)%Z with (Z.of_nat n) in Hd2 by lia.
  rewrite greater_depth, Hd1, Hd2, limit_maxDepthOf, encodingOf_idempotent,
    maxDepthOf_idempotent.
  destruct (Z.ltb_spec (limit maxDepth) (Z.of_nat n)); [lia|].
  simpl orb. cbv iota. subst d. change (depthIn NNull) with NNull. now rewrite He.
Qed.

End NormalizerFacts.

(** ** [execFile], further *)

Section RunnerFacts.

Import ExecFile.

Context {P : Platform}.

Variable ChildProcess_execFile : launch -> gmap string value -> behaviour.

(** X12. An [env] the caller supplies is left alone: when the options
    object has an [env] that is not nil, a call of [execFile] changes
    nothing in the heap, whether it gets as far as the launch or not. *)
Theorem execFile_keeps_given_env (command args : value) (l : loc)
    (h : gmap loc (gmap string value)) (o : gmap string value) :
  h !! l = Some o ->
  isNil (property o "env") = false ->
  heap (execFile ChildProcess_execFile command args (Some l) h) = h.
Proof.
  intros Hl Henv. unfold execFile.
  destruct (do command0 <- toStringSafe command "";
            do args0 <- mapM (fun a => toStringSafe a "")
                          (asArray args (VData (DBool false)));
            Ok (command0, args0)) as [[c a]|e]; simpl; [|reflexivity].
  unfold objectAt. now rewrite Hl, Henv.
Qed.

(** X13. Without an options object, [execFile] makes one of its own: the
    launch gets an object that was not in the heap before and that holds
    [env], set to [process.env], and nothing else; every object the caller
    has is as before. *)
Theorem execFile_makes_own_options (command args : value)
    (h : gmap loc (gmap string value)) (la : launch) (seen : gmap string value) :
  launched (execFile ChildProcess_execFile command args None h) = Some (la, seen) ->
  h !! options la = None /\
  seen = {[ "env" := VData process_env ]} /\
  forall l' : loc, is_Some (h !! l') ->
    heap (execFile ChildProcess_execFile command args None h) !! l' = h !! l'.
Proof.
  unfold execFile.
  destruct (do command0 <- toStringSafe command "";
            do args0 <- mapM (fun a => toStringSafe a "")
                          (asArray args (VData (DBool false)));
            Ok (command0, args0)) as [[c a]|e]; simpl; [|discriminate].
  assert (Hfresh : h !! fresh (dom h) = None).
  { apply not_elem_of_dom, is_fresh. }
  assert (Hown : objectAt (<[fresh (dom h) := ∅]> h) (fresh (dom h)) = ∅).
  { unfold objectAt. now rewrite (lookup_insert_eq h). }
  rewrite Hown. change (isNil (property ∅ "env")) with true. cbv iota.
  unfold objectAt at 1. rewrite (lookup_insert_eq (<[fresh (dom h) := ∅]> h)).
  intros H. injection H as H1 H2. subst la seen. simpl.
  split; [exact Hfresh|]. split.
  - now rewrite insert_empty.
  - intros l' Hl'. rewrite !lookup_insert_ne; [reflexivity| |];
      intros <-; rewrite Hfresh in Hl'; now destruct Hl'.
Qed.

(** X14. When the callback of [ChildProcess.execFile] reports an error, the
    promise is rejected with that error, whatever the two outputs are; and
    when [ChildProcess.execFile] itself throws an error, the promise is
    rejected with it. *)
Theorem execFile_error_rejects (command args : value) (opts : option loc)
    (h : gmap loc (gmap string value)) (la : launch) (seen : gmap string value)
    (err : value) :
  launched (execFile ChildProcess_execFile command args opts h) = Some (la, seen) ->
  truthy err = true ->
  (exists child stdout stderr,
      ChildProcess_execFile la seen = CallsBack child err stdout stderr) \/
  ChildProcess_execFile la seen = Throws err ->
  returned (execFile ChildProcess_execFile command args opts h) = Rejected err.
Proof.
  unfold execFile.
  destruct (do command0 <- toStringSafe command "";
            do args0 <- mapM (fun a => toStringSafe a "")
                          (asArray args (VData (DBool false)));
            Ok (command0, args0)) as [[c a]|e]; [|discriminate].
  destruct opts as [l|]; simpl;
    intros H Herr Hb; injection H as H1 H2; rewrite H1, H2;
    (destruct Hb as [(child & stdout & stderr & Hb)|Hb]; rewrite Hb;
     [unfold callback; rewrite Herr|]; unfold COMPLETED; simpl; now rewrite Herr).
Qed.

(** X15. When the command ran without error and gave text on both outputs,
    the promise is fulfilled with the child and the two outputs as UTF-8
    buffers, standard error in [stdErr] and standard output in [stdOut]. *)
Theorem execFile_success (command args : value) (opts : option loc)
    (h : gmap loc (gmap string value)) (la : launch) (seen : gmap string value)
    (child : nat) (err : value) (stdout stderr : string) (out errOut : list byte) :
  launched (execFile ChildProcess_execFile command args opts h) = Some (la, seen) ->
  ChildProcess_execFile la seen = CallsBack child err (VString stdout) (VString stderr) ->
  truthy err = false ->
  Buffer_new stdout (Some "utf8") = Ok out ->
  Buffer_new stderr (Some "utf8") = Ok errOut ->
  returned (execFile ChildProcess_execFile command args opts h) =
  Fulfilled {| stdErr := VBuffer errOut; stdOut := VBuffer out; process := Some child |}.
Proof.
  unfold execFile.
  destruct (do command0 <- toStringSafe command "";
            do args0 <- mapM (fun a => toStringSafe a "")
                          (asArray args (VData (DBool false)));
            Ok (command0, args0)) as [[c a]|e]; [|discriminate].
  destruct opts as [l|]; simpl;
    intros H Hb Herr Hout HerrOut; injection H as H1 H2; rewrite H1, H2, Hb;
    unfold callback; rewrite Herr;
    unfold asBuffer; rewrite !asBufferInner_unfold; cbv zeta;
    change (encodingOf (Some "utf8")) with (Some "utf8");
    simpl; rewrite HerrOut, Hout; reflexivity.
Qed.

End RunnerFacts.

(** ** [toStringSafe] on tame data *)

Section Tame.

Context {P : Platform}.

(** Induction on data, through arrays and objects. *)
Lemma data_induction (Q : data -> Prop) :
  Q DUndefined -> Q DNull -> (forall b, Q (DBool b)) -> (forall n, Q (DNum n)) ->
  (forall s, Q (DStr s)) ->
  (forall items, Forall Q items -> Q (DArr items)) ->
  (forall h props, Forall (fun kv => Q (snd kv)) props -> Q (DObj h props)) ->
  forall d, Q d.
Proof.
  intros Hu Hn Hb Hz Hs Ha Ho.
  fix IH 1. intros [| |b|n|s|items|h props].
  - exact Hu.
  - exact Hn.
  - apply Hb.
  - apply Hz.
  - apply Hs.
  - apply Ha. induction items as [|x items IHitems]; constructor; [apply IH | exact IHitems].
  - apply Ho. induction props as [|[k x] props IHprops]; constructor;
      [apply IH | exact IHprops].
Qed.

Lemma ToString_tame (d : data) : tame d = true -> exists s, ToString d = Ok s.
Proof.
  induction d as [| |b|n|s|items IH|h props _] using data_induction; intros Ht;
    try (eexists; reflexivity).
  - simpl in Ht.
    assert (Hparts : exists ps,
      (fix parts (l : list data) : res (list string) :=
         match l with
         | [] => Ok []
         | x :: l' =>
             match match x with DUndefined | DNull => Ok "" | _ => ToString x end with
             | Throw e => Throw e
             | Ok p => match parts l' with Throw e => Throw e | Ok ps => Ok (p :: ps) end
             end
         end) items = Ok ps).
    { induction items as [|x items IHitems]; [eexists; reflexivity|].
      simpl in Ht. apply andb_true_iff in Ht. destruct Ht as [Hx Hitems].
      apply Forall_cons in IH. destruct IH as [IHx IH].
      destruct (IHitems IH Hitems) as [ps Hps].
      destruct (IHx Hx) as [p Hp].
      rewrite Hps.
      destruct x; try (eexists; reflexivity); rewrite Hp; eexists; reflexivity. }
    destruct Hparts as [ps Hps]. simpl. rewrite Hps. eexists; reflexivity.
  - simpl in Ht. simpl. destruct (h_toString h); try discriminate. eexists; reflexivity.
Qed.

(** X16. Where [toStringSafe] is safe: of data in which every object has a
    [toString] that returns a string (primitives, arrays of such data,
    object literals) it returns a string and does not throw. *)
Theorem toStringSafe_tame (d : data) (defaultVal : string) :
  tame d = true ->
  exists s, toStringSafe (VData d) defaultVal = Ok (Some s).
Proof.
  intros Ht. destruct d as [| |b|n|s|items|h props];
    try (eexists; reflexivity).
  - destruct (ToString_tame (DArr items) Ht) as [s Hs].
    exists s. unfold toStringSafe. simpl isNil. cbv iota. simpl hasToString.
    unfold bind at 1. cbv iota beta.
    unfold callToString. rewrite Hs. reflexivity.
  - simpl in Ht. unfold toStringSafe. simpl.
    destruct (h_toString h); try discriminate. eexists; reflexivity.
Qed.

End Tame.

(** ** [compareValues] *)

(** X17. On integers [compareValues] is the sign of the comparison: -1 when
    [x] is smaller, 0 when the two are equal, 1 when [x] is larger. *)
Theorem compareNumbers_sign (x y : Z) :
  compareNumbers (NNum x) (NNum y) =
  match (x ?= y)%Z with
  | Lt => (-1)%Z
  | Eq => 0%Z
  | Gt => 1%Z
  end.
Proof.
  unfold compareNumbers, compareValues, numberStrictNotEqual, greater. simpl.
  destruct (Z.compare_spec x y) as [H|H|H].
  - subst. now rewrite Z.eqb_refl.
  - destruct (Z.eqb_spec x y); simpl; [lia|].
    destruct (Z.ltb_spec y x); [lia|]. destruct (Z.ltb_spec x y); [reflexivity | lia].
  - destruct (Z.eqb_spec x y); simpl; [lia|].
    destruct (Z.ltb_spec y x); [reflexivity | lia].
Qed.

(** X18. [NaN] compares as 0 with every number, on either side, and so
    does [undefined]: a result of 0 does not mean that the two are equal. *)
Theorem compareNumbers_NaN (a : jsnum) :
  compareNumbers NNaN a = 0%Z /\ compareNumbers a NNaN = 0%Z /\
  compareNumbers NUndefined a = 0%Z /\ compareNumbers a NUndefined = 0%Z.
Proof. destruct a; repeat split. Qed.

(** Swapping the arguments flips the sign, for numbers. *)
Lemma compareNumbers_antisymmetric (a b : jsnum) :
  compareNumbers b a = (- compareNumbers a b)%Z.
Proof.
  destruct a as [| | |x], b as [| | |y]; try reflexivity;
    unfold compareNumbers, compareValues, numberStrictNotEqual, greater; simpl;
    repeat match goal with
           | |- context [(?u =? ?v)%Z] => destruct (Z.eqb_spec u v); simpl
           | |- context [(?u <? ?v)%Z] => destruct (Z.ltb_spec u v); simpl
           end; try reflexivity; lia.
Qed.

Lemma string_compare_refl (s : string) : String.compare s s = Eq.
Proof.
  pose proof (String.compare_antisym s s) as H.
  destruct (String.compare s s); simpl in H; try discriminate; reflexivity.
Qed.

(** X19. On strings [compareValues] orders by code units: the result is 0
    exactly when the two strings are the same, and swapping the arguments
    flips the sign. *)
Theorem compareStrings_order (s t : string) :
  (compareStrings s t = 0%Z <-> s = t) /\
  compareStrings t s = (- compareStrings s t)%Z /\
  compareStrings s t =
    match String.compare s t with
    | Lt => (-1)%Z
    | Eq => 0%Z
    | Gt => 1%Z
    end.
Proof.
  assert (Hc : compareStrings s t =
               match String.compare s t with Lt => (-1)%Z | Eq => 0%Z | Gt => 1%Z end).
  { unfold compareStrings, compareValues, stringGreater.
    rewrite (String.compare_antisym t s).
    destruct (String.eqb_spec s t) as [->|Hne]; simpl.
    - now rewrite string_compare_refl.
    - destruct (String.compare s t); reflexivity. }
  assert (Hc' : compareStrings t s =
               match String.compare t s with Lt => (-1)%Z | Eq => 0%Z | Gt => 1%Z end).
  { unfold compareStrings, compareValues, stringGreater.
    rewrite (String.compare_antisym s t).
    destruct (String.eqb_spec t s) as [->|Hne]; simpl.
    - now rewrite string_compare_refl.
    - destruct (String.compare t s); reflexivity. }
  split; [|split; [|exact Hc]].
  - rewrite Hc. split.
    + destruct (String.compare s t) eqn:E; try discriminate.
      intros _. now apply String.compare_eq_iff.
    + intros ->. now rewrite string_compare_refl.
  - rewrite Hc, Hc', (String.compare_antisym s t).
    destruct (String.compare t s); reflexivity.
Qed.

(** ** [forEachAsync] *)

Section ForEachFacts.

Variable W : Type.
Variable action : value -> nat -> W -> W * promise value value.

(** X20. The loop composes: going through [l1 ++ l2] is going through
    [l1] and, if every action of it was fulfilled, going on through [l2] with
    the indices, the last result and the world where [l1] left them; an
    action that rejects or never settles ends the loop, and no later item is
    visited. *)
Theorem forEachFrom_app (l1 l2 : list value) (i : nat) (lastResult : value) (w : W) :
  forEachFrom W action (l1 ++ l2) i lastResult w =
  match forEachFrom W action l1 i lastResult w with
  | (w', Fulfilled r) => forEachFrom W action l2 (i + length l1) r w'
  | stopped => stopped
  end.
Proof.
  revert i lastResult w. induction l1 as [|x l1 IH]; intros i lastResult w; simpl.
  - now rewrite Nat.add_0_r.
  - destruct (action x i w) as [w' [r|e|]]; try reflexivity.
    rewrite IH. now replace (S i + length l1)%nat with (i + S (length l1))%nat by lia.
Qed.

End ForEachFacts.

Lemma last_default {A : Type} (l : list A) (a d d' : A) :
  List.last (a :: l) d = List.last (a :: l) d'.
Proof.
  revert a. induction l as [|b l IH]; intros a; [reflexivity|].
  change (List.last (b :: l) d = List.last (b :: l) d'). apply IH.
Qed.

Lemma forEachFrom_noting (f : value -> value) (items : list value) :
  forall (i : nat) (lastResult : value) (log : list (value * nat)),
    forEachFrom _ (noting f) items i lastResult log =
    (log ++ combine items (seq i (length items)),
     Fulfilled (List.last (map f items) lastResult)).
Proof.
  induction items as [|x items IH]; intros i lastResult log; simpl.
  - now rewrite app_nil_r.
  - rewrite IH, <- app_assoc. simpl. f_equal.
    destruct items as [|y items]; [reflexivity|].
    f_equal. apply (last_default (map f items) (f y)).
Qed.

(** X21. When every action is fulfilled, the actions are called once per
    item, in the order of the items, each with its zero-based index, and the
    promise is fulfilled with the result of the last action; for an empty
    array no action is called and the result is [undefined]. *)
Theorem forEachAsync_visits_in_order (Enumerable_toArray : value -> res (list value))
    (f : value -> value) (items : list data) :
  forEachAsync _ Enumerable_toArray (VData (DArr items)) (noting f) [] =
  (combine (map VData items) (seq 0 (length items)),
   Fulfilled (List.last (map f (map VData items)) VUndefined)).
Proof.
  unfold forEachAsync, sequenceItems. simpl.
  rewrite forEachFrom_noting. now rewrite length_map.
Qed.

(** ** [format] *)

Section FormatFacts.

Context {P : Platform}.

Variable toUpperCase : string -> string.

Lemma replacePlaceholders_no_brace (args : nat -> value) (s : string) :
  braceFree s = true -> replacePlaceholders toUpperCase args s 0 = Ok s.
Proof.
  unfold braceFree. induction s as [|c s IH]; simpl; [reflexivity|].
  intros H. apply andb_true_iff in H. destruct H as [Hc Hs].
  apply negb_true_iff in Hc. rewrite Hc. now rewrite (IH Hs).
Qed.

(** X22. A format string without an opening brace comes back as it is,
    whatever the arguments are. *)
Theorem format_without_placeholder (s : string) (args : list value) :
  braceFree s = true ->
  format toUpperCase (VString s) args = Ok s.
Proof. intros H. unfold format. simpl. now apply replacePlaceholders_no_brace. Qed.

End FormatFacts.

(** ** [format]: placeholders *)

Lemma append_assoc (a b c : string) : (a +:+ b) +:+ c = a +:+ (b +:+ c).
Proof.
  induction a as [|x a IH]; [reflexivity|].
  change (String x ((a +:+ b) +:+ c) = String x (a +:+ b +:+ c)). now rewrite IH.
Qed.

Lemma length_append (a b : string) :
  String.length (a +:+ b) = (String.length a + String.length b)%nat.
Proof.
  induction a as [|x a IH]; [reflexivity|].
  change (S (String.length (a +:+ b)) = S (String.length a + String.length b)).
  now rewrite IH.
Qed.

Section PlaceholderFacts.

Context {P : Platform}.

Variable toUpperCase : string -> string.

(** A string that does not go on with a digit. *)
Lemma takeDigits_append (ds rest : string) :
  forallb isDigit (list_ascii_of_string ds) = true ->
  match rest with
  | EmptyString => True
  | String c _ => isDigit c = false
  end ->
  takeDigits (ds +:+ rest) = (ds, rest).
Proof.
  intros Hd Hr. induction ds as [|c ds IH]; simpl in *.
  - destruct rest as [|c rest]; [reflexivity|]. simpl. now rewrite Hr.
  - apply andb_true_iff in Hd. destruct Hd as [Hc Hd].
    rewrite Hc, (IH Hd). reflexivity.
Qed.

Lemma untilClose_append (e b : string) :
  closeFree e = true -> untilClose (e +:+ "}" +:+ b) = Some e.
Proof.
  unfold closeFree. induction e as [|c e IH]; simpl; [reflexivity|].
  intros H. apply andb_true_iff in H. destruct H as [Hc He].
  apply negb_true_iff in Hc. now rewrite Hc, (IH He).
Qed.

Lemma ph_match_append (ph : placeholder) (b : string) :
  ph_match ph +:+ b =
  String "{" (ph_index ph +:+ (if ph_separator ph then ":" else "") +:+ ph_expr ph
              +:+ "}" +:+ b).
Proof.
  unfold ph_match. rewrite !append_assoc. reflexivity.
Qed.

(** The expression, tried where a capturable placeholder stands, captures
    it. *)
Lemma matchPlaceholder_capturable (ph : placeholder) (b : string) :
  capturable ph = true ->
  matchPlaceholder (ph_match ph +:+ b) = Some ph.
Proof.
  rewrite ph_match_append.
  destruct ph as [ds sep e]. unfold capturable, digits.
  cbn [ph_index ph_separator ph_expr].
  intros H. apply andb_true_iff in H. destruct H as [H Hs].
  apply andb_true_iff in H. destruct H as [H He].
  apply andb_true_iff in H. destruct H as [Hne Hd].
  cbn [matchPlaceholder]. change (code "{"%char =? 123)%nat with true. cbv iota.
  rewrite (takeDigits_append ds _ Hd).
  - destruct (isEmpty ds); [discriminate|]. cbv iota.
    destruct sep.
    + change (":" +:+ e +:+ "}" +:+ b) with (String ":" (e +:+ "}" +:+ b)).
      cbv iota beta zeta.
      match goal with
      | |- context [if ?t then _ else _] => change t with true
      end.
      cbv iota beta zeta.
      now rewrite (untilClose_append e b He).
    + change ("" +:+ e +:+ "}" +:+ b) with (e +:+ "}" +:+ b).
      destruct e as [|c e].
      * reflexivity.
      * change (String c e +:+ "}" +:+ b) with (String c (e +:+ "}" +:+ b)).
        simpl in Hs. apply andb_true_iff in Hs. destruct Hs as [_ Hs].
        apply negb_true_iff in Hs. cbv iota beta zeta. rewrite Hs. cbv iota beta zeta.
        change (String c (e +:+ "}" +:+ b)) with (String c e +:+ "}" +:+ b).
        now rewrite (untilClose_append (String c e) b He).
  - destruct sep.
    + reflexivity.
    + change ("" +:+ e +:+ "}" +:+ b) with (e +:+ "}" +:+ b).
      destruct e as [|c e]; [reflexivity|].
      simpl in Hs. apply andb_true_iff in Hs. destruct Hs as [Hs _].
      apply negb_true_iff in Hs. exact Hs.
Qed.

(** The characters of a match are passed over. *)
Lemma replacePlaceholders_skip (args : nat -> value) (m b : string) :
  replacePlaceholders toUpperCase args (m +:+ b) (String.length m) =
  replacePlaceholders toUpperCase args b 0.
Proof. induction m as [|c m IH]; simpl; [reflexivity | exact IH]. Qed.

(** Formatting up to and including the first placeholder: the text before
    it is kept, the placeholder gives what the replacer returns, and the
    formatting goes on behind the placeholder. *)
Lemma replacePlaceholders_first (args : nat -> value) (a b : string) (ph : placeholder) :
  braceFree a = true ->
  capturable ph = true ->
  replacePlaceholders toUpperCase args (a +:+ ph_match ph +:+ b) 0 =
  do r <- replacer toUpperCase args ph;
  do rest <- replacePlaceholders toUpperCase args b 0;
  Ok (a +:+ r +:+ rest).
Proof.
  intros Ha Hph. unfold braceFree in Ha.
  induction a as [|c a IH].
  - pose proof (matchPlaceholder_capturable ph b Hph) as Hm.
    set (m := ph_index ph +:+ (if ph_separator ph then ":" else "") +:+ ph_expr ph +:+ "}").
    change (ph_match ph) with (String "{" m) in *.
    change ("" +:+ String "{" m +:+ b) with (String "{" (m +:+ b)).
    change (String "{" m +:+ b) with (String "{" (m +:+ b)) in Hm.
    cbn [replacePlaceholders]. rewrite Hm.
    change (ph_match ph) with (String "{" m).
    change (String.length (String "{" m) - 1)%nat with (String.length m - 0)%nat.
    rewrite Nat.sub_0_r, replacePlaceholders_skip.
    destruct (replacer toUpperCase args ph); reflexivity.
  - simpl in Ha. apply andb_true_iff in Ha. destruct Ha as [Hc Ha].
    apply negb_true_iff in Hc.
    change ((String c a) +:+ ph_match ph +:+ b) with (String c (a +:+ ph_match ph +:+ b)).
    cbn [replacePlaceholders matchPlaceholder]. rewrite Hc, (IH Ha).
    destruct (replacer toUpperCase args ph) as [r|e]; simpl; [|reflexivity].
    destruct (replacePlaceholders toUpperCase args b 0); reflexivity.
Qed.

Lemma placeholder_text (a ds b : string) (sep : bool) (e : string) :
  a +:+ "{" +:+ ds +:+ (if sep then ":" else "") +:+ e +:+ "}" +:+ b =
  a +:+ ph_match {| ph_index := ds; ph_separator := sep; ph_expr := e |} +:+ b.
Proof.
  unfold ph_match. cbn [ph_index ph_separator ph_expr].
  f_equal. now rewrite !append_assoc.
Qed.

(** X23. The first placeholder [{i}] of a format string: the text before it
    is kept; the placeholder becomes the string of the argument with index
    [i], or stays as it is when there is no such argument or the argument is
    [undefined]; and formatting goes on behind the placeholder, so the text
    put in is not scanned for placeholders again. *)
Theorem format_first_placeholder (a ds b : string) (args : list value) :
  braceFree a = true ->
  digits ds = true ->
  format toUpperCase (VString (a +:+ "{" +:+ ds +:+ "}" +:+ b)) args =
  do r <- inserted ("{" +:+ ds +:+ "}") (nth (parseDigits ds) args VUndefined);
  do rest <- format toUpperCase (VString b) args;
  Ok (a +:+ r +:+ rest).
Proof.
  intros Ha Hd. unfold format.
  rewrite !toStringSafe_string. cbv beta iota delta [bind replaceIn].
  replace (a +:+ "{" +:+ ds +:+ "}" +:+ b)
    with (a +:+ ph_match {| ph_index := ds; ph_separator := false; ph_expr := "" |} +:+ b)
    by (symmetry; apply (placeholder_text a ds b false "")).
  rewrite replacePlaceholders_first; [|exact Ha|].
  - unfold replacer, inserted, ph_match. cbn [ph_index ph_separator ph_expr].
    change ("{" +:+ ds +:+ "" +:+ "" +:+ "}") with ("{" +:+ ds +:+ "}").
    destruct (nth (parseDigits ds) args VUndefined) as [[]| | | |]; reflexivity.
  - unfold capturable. cbn [ph_index ph_separator ph_expr]. now rewrite Hd.
Qed.

(** X24. A placeholder with a format provider and no argument: where
    [{i}] alone would stay as it is, [{i:trim}] (and likewise with
    [lower], [surround], [ending_space] and [leading_space]) gives the empty
    string, because the provider turns the missing argument into a
    string. *)
Theorem format_provider_without_argument (a ds fp b : string) (args : list value) :
  braceFree a = true ->
  digits ds = true ->
  In fp ["ending_space"; "leading_space"; "lower"; "trim"; "surround"] ->
  nth (parseDigits ds) args VUndefined = VUndefined ->
  format toUpperCase (VString (a +:+ "{" +:+ ds +:+ ":" +:+ fp +:+ "}" +:+ b)) args =
  do rest <- format toUpperCase (VString b) args;
  Ok (a +:+ rest).
Proof.
  intros Ha Hd Hfp Hnth. unfold format.
  rewrite !toStringSafe_string. cbv beta iota delta [bind replaceIn].
  replace (a +:+ "{" +:+ ds +:+ ":" +:+ fp +:+ "}" +:+ b)
    with (a +:+ ph_match {| ph_index := ds; ph_separator := true; ph_expr := fp |} +:+ b)
    by (symmetry; apply (placeholder_text a ds b true fp)).
  assert (Hknown : closeFree fp = true /\
                   applyProviders toUpperCase (formatProviders fp) VUndefined =
                   Ok (VString "")).
  { simpl in Hfp.
    destruct Hfp as [<-|[<-|[<-|[<-|[<-|[]]]]]]; split; reflexivity. }
  destruct Hknown as [Hclose Hr].
  rewrite replacePlaceholders_first; [|exact Ha|].
  - unfold replacer. cbn [ph_index ph_separator ph_expr]. rewrite Hnth, Hr.
    cbv beta iota delta [bind]. rewrite toStringSafe_string.
    destruct (replacePlaceholders toUpperCase _ b 0); reflexivity.
  - unfold capturable. cbn [ph_index ph_separator ph_expr]. now rewrite Hd, Hclose.
Qed.

End PlaceholderFacts.

(** ** [uuid], [doesMatch], [dispose], [isBinaryContent] *)

Section SelectorFacts.

Context {P : Platform}.

Variable UUID : uuidGenerator -> list value -> res value.

(** X25. The version given to [uuid] is read without regard to case and
    surrounding white space, and when none is given ([undefined] or [null])
    the version 4 generator is used. *)
Theorem uuid_version_normalised (args : list value) :
  (forall s : string,
      uuid UUID (VString s) args = uuid UUID (VString (trim (toLowerCase s))) args) /\
  uuid UUID VUndefined args = UUID UUID_v4 args /\
  uuid UUID VNull args = UUID UUID_v4 args.
Proof.
  split; [|split; reflexivity].
  intros s. unfold uuid, normalizeString. rewrite !toStringSafe_string.
  cbv beta iota delta [bind defaultNormalizer].
  now rewrite toLowerCase_trim, toLowerCase_idempotent, trim_idempotent.
Qed.

Variable Minimatch : option string -> option string -> res bool.

(** Without patterns nothing matches, whatever [Minimatch] would say. *)
Lemma doesMatch_no_pattern (v : string) :
  doesMatch Minimatch (VString v) VUndefined = Ok false /\
  doesMatch Minimatch (VString v) VNull = Ok false /\
  doesMatch Minimatch (VString v) (VData (DArr [])) = Ok false.
Proof. repeat split. Qed.

End SelectorFacts.

Section MatchFacts.

Context {P : Platform}.

Lemma mapM_patterns (patterns : list (option string)) :
  ExecFile.mapM (fun p => toStringSafe p "")
    (asArray (VData (DArr (map patternData patterns))) VUndefined) =
  Ok (map Some (present patterns)).
Proof.
  unfold asArray. simpl.
  induction patterns as [|[p|] patterns IH]; simpl.
  - reflexivity.
  - rewrite IH. reflexivity.
  - exact IH.
Qed.

Lemma anyMatch_matching (m : string -> string -> bool) (v : string) (ps : list string) :
  anyMatch (matching m) (Some v) (map Some ps) = Ok (existsb (m v) ps).
Proof.
  induction ps as [|p ps IH]; simpl; [reflexivity|].
  destruct (m v p); [reflexivity | exact IH].
Qed.

(** X26. [doesMatch] says whether the value matches at least one of the
    patterns: [null] entries among the patterns are left out, and with no
    pattern at all (an empty array, [null], [undefined]) the answer is
    [false]. *)
Theorem doesMatch_some_pattern (m : string -> string -> bool) (v : string)
    (patterns : list (option string)) :
  doesMatch (matching m) (VString v) (VData (DArr (map patternData patterns))) =
    Ok (existsb (m v) (present patterns)) /\
  doesMatch (matching m) (VString v) VNull = Ok false /\
  doesMatch (matching m) (VString v) VUndefined = Ok false.
Proof.
  split; [|split; reflexivity].
  unfold doesMatch. rewrite toStringSafe_string. cbv beta iota delta [bind].
  rewrite mapM_patterns. apply anyMatch_matching.
Qed.

End MatchFacts.

Lemma fold_delete_lookup (keys : list string) :
  forall (m : gmap string value) (k : string),
    fold_left (fun session key => delete key session) keys m !! k =
    if decide (k ∈ keys) then None else m !! k.
Proof.
  induction keys as [|key keys IH]; intros m k; simpl.
  - destruct (decide (k ∈ [])) as [H|H]; [|reflexivity].
    apply elem_of_nil in H. destruct H.
  - rewrite IH.
    destruct (decide (k ∈ keys)) as [Hin|Hnin].
    + destruct (decide (k ∈ key :: keys)) as [H|H]; [reflexivity|].
      exfalso. apply H. now right.
    + destruct (decide (k = key)) as [->|Hne].
      * rewrite lookup_delete_eq.
        destruct (decide (key ∈ key :: keys)) as [H|H]; [reflexivity|].
        exfalso. apply H. now left.
      * rewrite lookup_delete_ne by congruence.
        destruct (decide (k ∈ key :: keys)) as [H|H]; [|reflexivity].
        apply elem_of_cons in H. destruct H as [H|H]; contradiction.
Qed.

(** X27. After [dispose] the session holds nothing, whatever it held
    before. *)
Theorem dispose_empties (SESSION : gmap string value) : dispose SESSION = ∅.
Proof.
  apply map_eq. intros k. unfold dispose. rewrite fold_delete_lookup, lookup_empty.
  destruct (decide (k ∈ map fst (map_to_list SESSION))) as [H|H]; [reflexivity|].
  destruct (SESSION !! k) as [v|] eqn:E; [|reflexivity].
  exfalso. apply H. apply list_elem_of_In, in_map_iff.
  exists (k, v). split; [reflexivity|].
  apply list_elem_of_In. now apply elem_of_map_to_list.
Qed.

(** X28. [isBinaryContent] settles its promise by the first signal and by
    nothing after it: the first call of the library's callback, or the
    exception the library throws if that comes first, decides (an error
    rejects, no error fulfils with the result), and [resolve] and [reject]
    together are called at most once; for [null] or [undefined] data the
    promise is rejected, since reading [data.length] throws inside the
    [try]. *)
Theorem isBinaryContent_first_signal (IsBinaryFile : value -> BinaryContent.run)
    (data : value) :
  BinaryContent.isBinaryContent IsBinaryFile data =
    match BinaryContent.signals IsBinaryFile data with
    | [] => Pending
    | (err, result) :: _ => if truthy err then Rejected err else Fulfilled result
    end /\
  (length (BinaryContent.calls IsBinaryFile data) <= 1)%nat /\
  BinaryContent.isBinaryContent IsBinaryFile VNull =
    Rejected (VError "TypeError" "Cannot read property 'length' of null") /\
  BinaryContent.isBinaryContent IsBinaryFile VUndefined =
    Rejected (VError "TypeError" "Cannot read property 'length' of undefined").
Proof.
  split; [|split; [|split; reflexivity]];
    unfold BinaryContent.isBinaryContent, BinaryContent.calls;
    destruct (BinaryContent.signals IsBinaryFile data) as [|[err result] rest];
    try (simpl; lia); try reflexivity;
    rewrite invoke_first_call;
    unfold CompletedAction.createCompletedAction, CompletedAction.created,
      BinaryContent.resolve, BinaryContent.reject; simpl;
    destruct (truthy err); simpl; try reflexivity; lia.
Qed.

(** ** The further properties on concrete inputs *)

Lemma normalizeString_idempotent_witness :
  normalizeString (P := nodeText) (VString "utf8") None = Ok "utf8".
Proof.
  apply (normalizeString_idempotent (P := nodeText) (VString "  UTF8 ") "utf8").
  reflexivity.
Defined.

Lemma readAll_without_end_witness :
  ReadAll.readAll (P := nodeText) (VReadable [SData (CString "ab"); SData (CString "cd")]) None =
  Ok Pending.
Proof.
  apply (readAll_without_end (P := nodeText) [CString "ab"; CString "cd"] None (utf8 "abcd")).
  reflexivity.
Defined.

Lemma readAll_chunk_refused_witness :
  ReadAll.readAll (P := nodeText)
    (VReadable [SData (CString "ab"); SData (CString "cd"); SEnd]) (Some "bogus") =
  Ok (Rejected (VError "TypeError" "Unknown encoding: bogus")).
Proof.
  apply (readAll_chunk_refused (P := nodeText) [] (CString "ab")
           (VError "TypeError" "Unknown encoding: bogus")
           [SData (CString "cd"); SEnd] (Some "bogus") []).
  - reflexivity.
  - reflexivity.
  - reflexivity.
Defined.

Lemma asBuffer_gives_buffer_or_nil_witness :
  isBuffer (VBuffer (utf8 "12")) || isNil (VBuffer (utf8 "12")) = true.
Proof.
  apply (asBuffer_gives_buffer_or_nil (P := nodeText) (wrap 2 (VData (DNum 12))) None
           NUndefined (VBuffer (utf8 "12"))).
  reflexivity.
Defined.

Lemma asBuffer_unwraps_witness :
  asBuffer (P := nodeText) (wrap 2 (VString "a")) None (NNum 2) =
  asBufferInner (P := nodeText) (VString "a") None (NNum 2) (NNum 2).
Proof.
  apply (asBuffer_unwraps (P := nodeText) (wrap 2 (VString "a")) (VString "a") None (NNum 2) 2).
  - repeat econstructor.
  - vm_compute. discriminate.
Defined.

Lemma asBuffer_too_deep_witness :
  asBuffer (P := nodeText) (wrap 3 (VString "a")) None (NNum 2) =
  Rejected (VError "Error" "Maximum depth of 2 reached!").
Proof.
  apply (asBuffer_too_deep (P := nodeText) (wrap 3 (VString "a")) (VString "a") None (NNum 2) 3).
  - repeat econstructor.
  - reflexivity.
Defined.

Lemma asBuffer_rejection_passes_witness :
  asBuffer (P := nodeText)
    (wrap 1 (VFunction "() => { throw e }" (fun _ _ _ => Rejected (VError "Error" "no value"))))
    None NUndefined =
  Rejected (VError "Error" "no value").
Proof.
  apply (asBuffer_rejection_passes (P := nodeText) _ "() => { throw e }"
           (fun _ _ _ => Rejected (VError "Error" "no value")) None NUndefined 1).
  - repeat econstructor.
  - vm_compute. discriminate.
  - reflexivity.
Defined.

Lemma execFile_keeps_given_env_witness :
  ExecFile.heap
    (ExecFile.execFile (P := nodeText) (fun _ _ => ExecFile.Silent 7)
       (VString "ls") VUndefined (Some 1%nat)
       {[ 1%nat := {[ "env" := VData (DObj plain [("HOME", DStr "/root")]) ]} ]}) =
  {[ 1%nat := {[ "env" := VData (DObj plain [("HOME", DStr "/root")]) ]} ]}.
Proof.
  apply (execFile_keeps_given_env (P := nodeText) (fun _ _ => ExecFile.Silent 7)
           (VString "ls") VUndefined 1%nat
           {[ 1%nat := {[ "env" := VData (DObj plain [("HOME", DStr "/root")]) ]} ]}
           {[ "env" := VData (DObj plain [("HOME", DStr "/root")]) ]}).
  - reflexivity.
  - reflexivity.
Defined.

Lemma execFile_makes_own_options_witness :
  ({[ 1%nat := {[ "cwd" := VString "/tmp" ]} ]} : gmap nat (gmap string value)) !! 2%nat = None /\
  ({[ "env" := VData (DObj plain [("PATH", DStr "/usr/bin")]) ]} : gmap string value) =
  {[ "env" := VData (process_env (Platform := nodeText)) ]} /\
  forall l' : ExecFile.loc,
    is_Some (({[ 1%nat := {[ "cwd" := VString "/tmp" ]} ]} : gmap nat (gmap string value)) !! l') ->
    ExecFile.heap
      (ExecFile.execFile (P := nodeText) (fun _ _ => ExecFile.Silent 7)
         (VString "ls") VUndefined None {[ 1%nat := {[ "cwd" := VString "/tmp" ]} ]}) !! l' =
    ({[ 1%nat := {[ "cwd" := VString "/tmp" ]} ]} : gmap nat (gmap string value)) !! l'.
Proof.
  apply (execFile_makes_own_options (P := nodeText) (fun _ _ => ExecFile.Silent 7)
           (VString "ls") VUndefined {[ 1%nat := {[ "cwd" := VString "/tmp" ]} ]}
           {| ExecFile.file := Some "ls"; ExecFile.args := [Some ""];
              ExecFile.options := 2%nat |}
           {[ "env" := VData (DObj plain [("PATH", DStr "/usr/bin")]) ]}).
  reflexivity.
Defined.

Lemma execFile_error_rejects_witness :
  ExecFile.returned
    (ExecFile.execFile (P := nodeText)
       (fun _ _ => ExecFile.CallsBack 7 (VError "Error" "exit 1") (VString "") (VString "oops"))
       (VString "false") (VData (DArr [])) None ∅) =
  Rejected (VError "Error" "exit 1").
Proof.
  apply (execFile_error_rejects (P := nodeText)
           (fun _ _ => ExecFile.CallsBack 7 (VError "Error" "exit 1") (VString "") (VString "oops"))
           (VString "false") (VData (DArr [])) None ∅
           {| ExecFile.file := Some "false"; ExecFile.args := [];
              ExecFile.options := 0%nat |}
           {[ "env" := VData (DObj plain [("PATH", DStr "/usr/bin")]) ]}
           (VError "Error" "exit 1")).
  - reflexivity.
  - reflexivity.
  - left. exists 7%nat, (VString ""), (VString "oops"). reflexivity.
Defined.

Lemma execFile_success_witness :
  ExecFile.returned
    (ExecFile.execFile (P := nodeText)
       (fun _ _ => ExecFile.CallsBack 7 VNull (VString "hello") (VString ""))
       (VString "echo") (VData (DArr [DStr "hello"])) None ∅) =
  Fulfilled {| ExecFile.stdErr := VBuffer []; ExecFile.stdOut := VBuffer (utf8 "hello");
               ExecFile.process := Some 7%nat |}.
Proof.
  apply (execFile_success (P := nodeText)
           (fun _ _ => ExecFile.CallsBack 7 VNull (VString "hello") (VString ""))
           (VString "echo") (VData (DArr [DStr "hello"])) None ∅
           {| ExecFile.file := Some "echo"; ExecFile.args := [Some "hello"];
              ExecFile.options := 0%nat |}
           {[ "env" := VData (DObj plain [("PATH", DStr "/usr/bin")]) ]}
           7%nat VNull "hello" "" (utf8 "hello") []).
  - reflexivity.
  - reflexivity.
  - reflexivity.
  - reflexivity.
  - reflexivity.
Defined.

Lemma execFile_array_args_witness :
  exists l o,
    ExecFile.launched
      (ExecFile.execFile (P := nodeText) (fun _ _ => ExecFile.Silent 7)
         (VString "git") (VData (DArr [DStr "log"; DNull; DNum 3])) None ∅) = Some (l, o) /\
    ExecFile.file l = Some "git" /\
    ExecFile.args l = [Some "log"; Some ""; Some "3"] /\
    length (ExecFile.args l) = 3%nat.
Proof.
  apply (execFile_array_args (P := nodeText) (fun _ _ => ExecFile.Silent 7)
           (VString "git") [DStr "log"; DNull; DNum 3] None ∅
           (Some "git") [Some "log"; Some ""; Some "3"]).
  - reflexivity.
  - reflexivity.
Defined.

Lemma toStringSafe_tame_witness :
  exists s,
    toStringSafe (P := nodeText)
      (VData (DArr [DNum 1; DArr [DStr "a"; DNull]; DObj plain [("k", DBool true)]])) "" =
    Ok (Some s).
Proof.
  apply (toStringSafe_tame (P := nodeText)
           (DArr [DNum 1; DArr [DStr "a"; DNull]; DObj plain [("k", DBool true)]]) "").
  reflexivity.
Defined.

Lemma format_without_placeholder_witness :
  format (P := nodeText) asciiUpperCase (VString "no placeholder here }") [VString "x"] =
  Ok "no placeholder here }".
Proof.
  apply (format_without_placeholder (P := nodeText) asciiUpperCase
           "no placeholder here }" [VString "x"]).
  reflexivity.
Defined.

Lemma format_first_placeholder_witness :
  format (P := nodeText) asciiUpperCase (VString "a{1}b{0}") [VString "{0}"; VData (DNum 5)] =
  Ok "a5b{0}".
Proof.
  apply (format_first_placeholder (P := nodeText) asciiUpperCase "a" "1" "b{0}"
           [VString "{0}"; VData (DNum 5)]).
  - reflexivity.
  - reflexivity.
Defined.

Lemma format_provider_without_argument_witness :
  format (P := nodeText) asciiUpperCase (VString "<{3:trim}>") [VString "x"] = Ok "<>".
Proof.
  apply (format_provider_without_argument (P := nodeText) asciiUpperCase "<" "3" "trim" ">"
           [VString "x"]).
  - reflexivity.
  - reflexivity.
  - simpl. tauto.
  - reflexivity.
Defined.
